(** * Expense tracker: merchant categorisation, reconciliation and aggregation

    A shallow embedding of [tracker.py] (class [ExpenseTracker]) together with
    the properties its specification states about it.

    Modelling choices.
    - A Python [dict] keeps its insertion order and the order matters here
      (reconciliation takes the first key that is similar enough), so the
      merchant mapping is an association list; the family mapping likewise.
    - The JSON files are a finite map from path to document ([gmap]);
      [json.dump] followed by [json.load] gives back the same string-to-string
      dictionary, so a document is stored as the dictionary itself.
    - A pandas frame is the list of its rows, a row is a record, and a null
      or missing cell is [None].  Grouping drops rows whose key is null, as
      pandas does by default; that pandas refuses to group by a column that
      no row carries at all is not represented.
    - [fuzz.ratio] and [str.lower] belong to libraries: the general results
      take them as parameters of a section, and closed examples use the
      concrete [indel_ratio] and [ascii_lower].
    - Iterating over a Python [set] of strings has no fixed order: the order
      is a parameter [set_iter] of the pipeline.
    - Debit amounts are exact rationals; the float values that are not
      numbers ([nan], [inf]) are kept, since division by a zero total yields
      them. *)

From Stdlib Require Import QArith Qround Qabs Lqa ZArith Lia Bool.
From Stdlib Require Import String Ascii List Permutation Sorted.
From Stdlib Require OrderedTypeEx.
From stdpp Require Import gmap strings list fin_maps pretty sorting.

Import ListNotations.
Open Scope string_scope.
Open Scope list_scope.

(** ** Python dictionaries with insertion order *)

Definition dict (V : Type) : Type := list (string * V).

(** [d.keys()], which is also what [for k in d] iterates over. *)
Definition dict_keys {V} (d : dict V) : list string := map fst d.

(** [d.get(k)] ([None] when absent); [d[k]] raises [KeyError] in that case. *)
Fixpoint dict_get {V} (d : dict V) (k : string) : option V :=
  match d with
  | [] => None
  | (k', v) :: d' => if String.eqb k k' then Some v else dict_get d' k
  end.

(** [d.update({k: v})]: an existing key keeps its position and takes the new
    value, a new key goes to the end. *)
Fixpoint dict_update {V} (d : dict V) (k : string) (v : V) : dict V :=
  match d with
  | [] => [(k, v)]
  | (k', v') :: d' =>
      if String.eqb k k' then (k', v) :: d' else (k', v') :: dict_update d' k v
  end.

(** ** Outcomes of fallible code *)

Inductive result (A : Type) : Type :=
| Ok (a : A)
| KeyError (k : string)
| FileNotFoundError (path : string).

Arguments Ok {A} a.
Arguments KeyError {A} k.
Arguments FileNotFoundError {A} path.

(** ** Rows of the statement *)

(** A row as read from the CSV file; the transaction date plays no role in
    categorisation or aggregation and is left out. *)
Record RawRow : Type := mkRawRow {
  raw_Transaction_Description : string;
  raw_Debit_Amount : Q;
  raw_Credit_Amount : option Q
}.

(** A row of [self.statement] once the credit column is dropped.  [Category]
    and [Category_Family] are [None] while the cell is null or missing. *)
Record Row : Type := mkRow {
  Transaction_Description : string;
  Debit_Amount : Q;
  Category : option string;
  Category_Family : option string
}.

Definition set_Category (row : Row) (c : option string) : Row :=
  {| Transaction_Description := Transaction_Description row;
     Debit_Amount := Debit_Amount row;
     Category := c;
     Category_Family := Category_Family row |}.

Definition set_Category_Family (row : Row) (f : option string) : Row :=
  {| Transaction_Description := Transaction_Description row;
     Debit_Amount := Debit_Amount row;
     Category := Category row;
     Category_Family := f |}.

(** ** The tracker and the world around it *)

Definition MERCHANT_MAPPING : string := "merchant_category_mapping.json".

(** The object's attributes; [R] is the shape of the statement's rows, which
    [process_transactions] changes. *)
Record ExpenseTracker (R : Type) : Type := mkTracker {
  statement : list R;
  merchant_mapping : dict string;
  expense_category_family_mapping : dict (list string)
}.

Arguments mkTracker {R} _ _ _.
Arguments statement {R} _.
Arguments merchant_mapping {R} _.
Arguments expense_category_family_mapping {R} _.

(** The merchant-mapping documents on disk, by path, and what was printed. *)
Record World : Type := mkWorld {
  files : gmap string (dict string);
  stdout : list string
}.

(** [__init__]: the statement and the family mapping are taken as already
    read; the merchant mapping is loaded from the path given. *)
Definition ExpenseTracker_init (w : World) (statement : list RawRow)
    (merchant_mapping : string)
    (expense_category_family_mapping : dict (list string))
  : result (ExpenseTracker RawRow) :=
  match files w !! merchant_mapping with
  | Some d => Ok (mkTracker statement d expense_category_family_mapping)
  | None => FileNotFoundError merchant_mapping
  end.

(** ** [add_merchant_category] *)

Definition add_merchant_category (merchant_mapping : dict string) (row : Row) : Row :=
  set_Category row (dict_get merchant_mapping (Transaction_Description row)).

(** ** [add_category_family] *)

(** [row["Category"] in children]: a null category equals no string. *)
Definition category_in (category : option string) (children : list string) : bool :=
  match category with
  | Some c => existsb (String.eqb c) children
  | None => false
  end.

(** The loop over [.items()]: the [else] belongs to the [if], so the default
    is written at every family that does not contain the category, and a
    family that does contain it ends the loop. *)
Fixpoint add_category_family (items : dict (list string)) (row : Row) : Row :=
  match items with
  | [] => row
  | (category_family, children) :: items' =>
      if category_in (Category row) children
      then set_Category_Family row (Some category_family)
      else add_category_family items' (set_Category_Family row (Some "Wants"))
  end.

(** ** Dropping the credits *)

Definition is_null {A} (o : option A) : bool :=
  match o with None => true | Some _ => false end.

(** Keep the rows without a credit amount and drop that column. *)
Definition drop_credits (raw : list RawRow) : list Row :=
  map (fun r => mkRow (raw_Transaction_Description r) (raw_Debit_Amount r) None None)
      (filter (fun r => is_null (raw_Credit_Amount r) = true) raw).

(** ** [process_unrecognized_merchants] *)

Section Reconciliation.

(** [fuzz.ratio] and [str.lower]. *)
Variable ratio : string -> string -> Z.
Variable lower : string -> string.

Definition similar (merchant mapped_merchant : string) : bool :=
  (80 <=? ratio (lower merchant) (lower mapped_merchant))%Z.

(** The inner loop, over the keys still to visit; the second component is
    [merchant_matched]. *)
Fixpoint match_merchant (merchant_mapping : dict string) (ks : list string)
    (merchant : string) : result (dict string * bool) :=
  match ks with
  | [] => Ok (merchant_mapping, false)
  | mapped_merchant :: ks' =>
      if similar merchant mapped_merchant then
        match dict_get merchant_mapping mapped_merchant with
        | Some c => Ok (dict_update merchant_mapping merchant c, true)
        | None => KeyError mapped_merchant
        end
      else match_merchant merchant_mapping ks' merchant
  end.

(** The outer loop, from a given mapping and list of leftovers. *)
Fixpoint reconcile (merchant_mapping : dict string)
    (still_unrecognized : list string) (merchants : list string)
  : result (dict string * list string) :=
  match merchants with
  | [] => Ok (merchant_mapping, still_unrecognized)
  | merchant :: rest =>
      match match_merchant merchant_mapping (dict_keys merchant_mapping) merchant with
      | Ok (d, true) => reconcile d still_unrecognized rest
      | Ok (d, false) => reconcile d (still_unrecognized ++ [merchant]) rest
      | KeyError k => KeyError k
      | FileNotFoundError p => FileNotFoundError p
      end
  end.

(** What the method prints at the end. *)
Definition report (still_unrecognized : list string) : list string :=
  match still_unrecognized with
  | [] => []
  | _ => "These merchants are unrecognized!: " :: still_unrecognized
  end.

(** The method: reconcile, dump the mapping to [MERCHANT_MAPPING], print. *)
Definition process_unrecognized_merchants {R} (self : ExpenseTracker R)
    (w : World) (merchants : list string) : result (ExpenseTracker R * World) :=
  match reconcile (merchant_mapping self) [] merchants with
  | Ok (d, still_unrecognized) =>
      Ok (mkTracker (statement self) d (expense_category_family_mapping self),
          mkWorld (<[MERCHANT_MAPPING := d]> (files w))
                  (stdout w ++ report still_unrecognized))
  | KeyError k => KeyError k
  | FileNotFoundError p => FileNotFoundError p
  end.

(** ** [process_transactions] *)

(** The descriptions added to the set, in the order of the rows. *)
Definition unrecognized_descriptions (st : list Row) : list string :=
  if existsb (fun row => is_null (Category row)) st
  then map Transaction_Description
           (filter (fun row => is_null (Category row) = true) st)
  else [].

(** [set_iter l] is the order in which Python iterates over the set that
    results from adding the elements of [l]. *)
Definition process_transactions (set_iter : list string -> list string)
    (self : ExpenseTracker RawRow) (w : World)
  : result (ExpenseTracker Row * World) :=
  let st1 := map (add_merchant_category (merchant_mapping self))
                 (drop_credits (statement self)) in
  let unrecognized_merchants := set_iter (unrecognized_descriptions st1) in
  match process_unrecognized_merchants
          (mkTracker st1 (merchant_mapping self)
                     (expense_category_family_mapping self))
          w unrecognized_merchants with
  | Ok (self', w') =>
      Ok (mkTracker
            (map (add_category_family (expense_category_family_mapping self'))
                 (statement self'))
            (merchant_mapping self')
            (expense_category_family_mapping self'),
          w')
  | KeyError k => KeyError k
  | FileNotFoundError p => FileNotFoundError p
  end.

(** The category that [m] takes from the mapping [d] alone. *)
Definition learned (d : dict string) (m : string) : option string :=
  match List.find (similar m) (dict_keys d) with
  | Some k => dict_get d k
  | None => None
  end.

Fixpoint learned_entries (d : dict string) (ms : list string) : dict string :=
  match ms with
  | [] => []
  | m :: ms' =>
      match learned d m with
      | Some v => (m, v) :: learned_entries d ms'
      | None => learned_entries d ms'
      end
  end.

End Reconciliation.

(** ** Aggregation *)

(** A float64 cell: a number, [nan], or an infinity with its sign. *)
Inductive float64 : Type :=
| Num (q : Q)
| NaN
| Inf (negative : bool).

(** [x / total] for two numbers, as numpy divides: a zero divisor gives
    [nan] for [0 / 0] and an infinity otherwise. *)
Definition float_div (x total : Q) : float64 :=
  if Qeq_bool total 0%Q
  then (if Qeq_bool x 0%Q then NaN else Inf (Qle_bool x 0%Q))
  else Num (x / total)%Q.

Definition float_mul (x : float64) (c : Q) : float64 :=
  match x with
  | Num q => Num (q * c)%Q
  | NaN => NaN
  | Inf s => Inf s
  end.

(** Rounding to an integer, ties to the even neighbour ([numpy.rint], also
    Python 3's [round]). *)
Definition round_half_even (q : Q) : Z :=
  let f := Qfloor q in
  match (q - inject_Z f ?= 1 # 2)%Q with
  | Lt => f
  | Gt => (f + 1)%Z
  | Eq => if Z.even f then f else (f + 1)%Z
  end.

(** [round(x, 0)] on a float64 cell. *)
Definition float_round (x : float64) : float64 :=
  match x with
  | Num q => Num (inject_Z (round_half_even q))
  | NaN => NaN
  | Inf s => Inf s
  end.

(** Add [x] to the group of key [k] in a table kept sorted by key. *)
Fixpoint group_add (k : string) (x : Q) (g : dict Q) : dict Q :=
  match g with
  | [] => [(k, x)]
  | (k', y) :: g' =>
      match String.compare k k' with
      | Eq => (k', (y + x)%Q) :: g'
      | Lt => (k, x) :: (k', y) :: g'
      | Gt => (k', y) :: group_add k x g'
      end
  end.

(** [df.groupby([key]).sum(numeric_only=True)["Debit Amount"].reset_index()]:
    one line per key, keys ascending, rows with a null key dropped. *)
Definition groupby_sum (key : Row -> option string) (df : list Row) : dict Q :=
  fold_left
    (fun g row =>
       match key row with
       | Some k => group_add k (Debit_Amount row) g
       | None => g
       end)
    df [].

(** [Series.sum()]. *)
Definition series_sum (xs : list Q) : Q := fold_right Qplus 0%Q xs.

(** A line of the family breakdown. *)
Record FamilyRow : Type := mkFamilyRow {
  fr_Category_Family : string;
  fr_Debit_Amount : Q;
  fr_Percentage : float64
}.

Definition get_expenses_by_category_families (df : list Row) : list FamilyRow :=
  let g := groupby_sum Category_Family df in
  let total := series_sum (map snd g) in
  map (fun kv =>
         mkFamilyRow (fst kv) (snd kv)
           (float_round (float_mul (float_div (snd kv) total) 100%Q)))
      g.

(** The extended view of [make_reports]: totals per category. *)
Definition expenses_by_category (df : list Row) : dict Q :=
  groupby_sum Category df.

(** ** Concrete string functions for closed examples *)

(** [str.lower] on ASCII text. *)
Definition ascii_lower_char (c : ascii) : ascii :=
  let n := N_of_ascii c in
  if ((65 <=? n) && (n <=? 90))%N then ascii_of_N (n + 32) else c.

Fixpoint ascii_lower (s : string) : string :=
  match s with
  | EmptyString => EmptyString
  | String c s' => String (ascii_lower_char c) (ascii_lower s')
  end.

(** Length of a longest common subsequence. *)
Fixpoint lcs (a b : list ascii) {struct a} : nat :=
  match a with
  | [] => 0
  | x :: a' =>
      (fix scan (b : list ascii) : nat :=
         match b with
         | [] => 0
         | y :: b' =>
             if Ascii.eqb x y then S (lcs a' b')
             else Nat.max (lcs a' b) (scan b')
         end) b
  end.

(** The similarity that [fuzz.ratio] returns with the Levenshtein back end:
    100 for equal strings, 0 when one is empty, and otherwise
    [round(100 * 2 * M / T)] with [M] the matched characters and [T] the sum
    of the lengths. *)
Definition indel_ratio (s1 s2 : string) : Z :=
  if String.eqb s1 s2 then 100%Z
  else if (Nat.eqb (String.length s1) 0 || Nat.eqb (String.length s2) 0)%bool then 0%Z
  else
    let m := Z.of_nat (lcs (list_ascii_of_string s1) (list_ascii_of_string s2)) in
    let t := Z.of_nat (String.length s1 + String.length s2) in
    round_half_even (Qmake (200 * m) (Z.to_pos t)).

(** Two iteration orders for a set of strings, one the reverse of the other. *)
Definition iter_forward (l : list string) : list string := remove_dups l.



(** ** Notions used in the statements *)

(** Strict order on keys, as [String.compare] decides it. *)
Definition str_lt (a b : string) : Prop := String.compare a b = Lt.

Definition total_of (g : dict Q) (k : string) : Q :=
  match dict_get g k with Some x => x | None => 0%Q end.

(** The amounts of the rows whose key is [k], added up. *)
Definition key_total (key : Row -> option string) (k : string) (df : list Row) : Q :=
  series_sum (map Debit_Amount (filter (fun row => key row = Some k) df)).

(** The amounts of the rows that have a key, added up. *)
Definition keyed_total (key : Row -> option string) (df : list Row) : Q :=
  series_sum (map Debit_Amount (filter (fun row => is_null (key row) = false) df)).


(** ** Data for closed examples *)

Definition tesco_mapping : dict string :=
  [("TESCO STORES", "Groceries"); ("TESCO STORES 4", "Fuel")].

Definition empty_world : World := mkWorld ∅ [].


Definition isolated_tracker : ExpenseTracker RawRow :=
  mkTracker
    [mkRawRow "TESCO STORES 42" 12 None; mkRawRow "SHELL GARAGE" 30 None;
     mkRawRow "TESCO STORES" 5 None]
    [("TESCO STORES", "Groceries")]
    [("Needs", ["Groceries"])].



Definition custom_path : string := "custom.json".

Definition custom_world : World :=
  mkWorld (<[custom_path := [("STARBUCKS #1234", "Coffee")]]> ∅) [].

Definition starbucks_statement : list RawRow :=
  [mkRawRow "STARBUCKS #1234 " 4 None].

(** ** [select_statement] *)

(** [sorted(names, key=mtime, reverse=True)]: most recent first, names with
    the same time in the order they had. *)
Fixpoint insert_by_mtime (mtime : string -> Q) (x : string) (l : list string)
  : list string :=
  match l with
  | [] => [x]
  | y :: l' =>
      if Qle_bool (mtime y) (mtime x) then x :: y :: l'
      else y :: insert_by_mtime mtime x l'
  end.

Definition sorted_by_mtime_reverse (mtime : string -> Q) (names : list string)
  : list string :=
  fold_right (insert_by_mtime mtime) [] names.

(** [{str(id_ + 1): statement for id_, statement in enumerate(...)}], with
    [id_] counting from [n]. *)
Fixpoint enumerate_statements (n : nat) (names : list string) : dict string :=
  match names with
  | [] => []
  | name :: names' => (pretty (S n), name) :: enumerate_statements (S n) names'
  end.

(** The method, given what [os.listdir] returns, the modification times and
    the line typed at the prompt: it prints the menu and the prompt, then
    looks the answer up. *)
Definition select_statement (mtime : string -> Q) (listdir : list string)
    (w : World) (selected_statement_id : string) : result string * World :=
  let statements :=
    enumerate_statements 0 (sorted_by_mtime_reverse mtime listdir) in
  (match dict_get statements selected_statement_id with
   | Some name => Ok name
   | None => KeyError selected_statement_id
   end,
   mkWorld (files w)
           (stdout w
            ++ map (fun kv : string * string => fst kv +:+ " - " +:+ snd kv) statements
            ++ ["Please select a statement id: "])).

(** ** [get_date_range_from_statement] *)

(** [s.iloc[i]]: a value or [IndexError]. *)
Inductive indexed (A : Type) : Type :=
| Found (a : A)
| IndexError.

Arguments Found {A} a.
Arguments IndexError {A}.

(** [sort_values] on a column of timestamps; a timestamp is the integer that
    pandas stores (nanoseconds since the epoch), none of them null. *)
Fixpoint insert_timestamp (t : Z) (l : list Z) : list Z :=
  match l with
  | [] => [t]
  | u :: l' => if (t <=? u)%Z then t :: u :: l' else u :: insert_timestamp t l'
  end.

Definition sort_values (dates : list Z) : list Z :=
  fold_right insert_timestamp [] dates.

Section DateRange.

(** [Timestamp.strftime("%b_%d_%Y")]. *)
Variable strftime : Z -> string.

Definition get_date_range_from_statement (dates : list Z) : indexed string :=
  let formatted := map strftime (sort_values dates) in
  match head formatted, last formatted with
  | Some start_date, Some end_date => Found (start_date +:+ "_" +:+ end_date)
  | _, _ => IndexError
  end.

(** [expense_report_name] in [make_reports]. *)
Definition expense_report_name (dates : list Z) : indexed string :=
  match get_date_range_from_statement dates with
  | Found range => Found ("expense_report_" +:+ range)
  | IndexError => IndexError
  end.

End DateRange.

(** ** Further notions used in the statements *)

(** Family assignment as a plain search: the first family whose list
    contains the category, else the default. *)
Fixpoint family_first_match (fm : dict (list string)) (category : option string)
  : string :=
  match fm with
  | [] => "Wants"
  | (f, children) :: fm' =>
      if category_in category children then f else family_first_match fm' category
  end.

Definition Zsum (zs : list Z) : Z := fold_right Z.add 0%Z zs.

(** * Properties *)

(** ** Dictionaries *)

Section DictFacts.
Context {V : Type}.
Implicit Types (d : dict V) (k : string) (v : V).

Lemma dict_get_app d1 d2 k :
  dict_get (d1 ++ d2) k =
  match dict_get d1 k with Some v => Some v | None => dict_get d2 k end.
Proof.
  induction d1 as [|[k' v'] d1 IH]; simpl; [reflexivity|].
  destruct (String.eqb k k'); auto.
Qed.

Lemma dict_get_None d k : dict_get d k = None <-> k ∉ dict_keys d.
Proof.
  induction d as [|[k' v'] d IH]; simpl.
  - split; [intros _; apply not_elem_of_nil | reflexivity].
  - rewrite not_elem_of_cons. destruct (String.eqb_spec k k') as [->|Hne].
    + split; [discriminate | intros [? _]; congruence].
    + rewrite IH. tauto.
Qed.

Lemma dict_get_key d k : k ∈ dict_keys d -> exists v, dict_get d k = Some v.
Proof.
  intros Hin. destruct (dict_get d k) as [v|] eqn:E; [eauto|].
  apply dict_get_None in E. contradiction.
Qed.

(** A successful lookup finds the first entry under exactly that key. *)
Lemma dict_get_Some d k v :
  dict_get d k = Some v <->
  exists d1 d2, d = d1 ++ (k, v) :: d2 /\ k ∉ dict_keys d1.
Proof.
  split.
  - induction d as [|[k' v'] d IH]; simpl; [discriminate|].
    destruct (String.eqb_spec k k') as [->|Hne].
    + intros [= ->]. exists [], d. split; [reflexivity | apply not_elem_of_nil].
    + intros H. destruct (IH H) as (d1 & d2 & -> & Hk).
      exists ((k', v') :: d1), d2. split; [reflexivity|].
      simpl. rewrite not_elem_of_cons. auto.
  - intros (d1 & d2 & -> & Hk). rewrite dict_get_app.
    apply dict_get_None in Hk. rewrite Hk. simpl.
    rewrite String.eqb_refl. reflexivity.
Qed.

Lemma dict_update_fresh d k v : k ∉ dict_keys d -> dict_update d k v = d ++ [(k, v)].
Proof.
  induction d as [|[k' v'] d IH]; simpl; [reflexivity|].
  rewrite not_elem_of_cons. intros [Hne Hk].
  destruct (String.eqb_spec k k'); [contradiction|]. rewrite IH; auto.
Qed.

Lemma dict_update_app_l d1 d2 k v :
  k ∈ dict_keys d1 -> dict_update (d1 ++ d2) k v = dict_update d1 k v ++ d2.
Proof.
  induction d1 as [|[k' v'] d1 IH]; simpl.
  - intros H. apply elem_of_nil in H. contradiction.
  - rewrite elem_of_cons. intros Hin.
    destruct (String.eqb_spec k k') as [->|Hne]; [reflexivity|].
    destruct Hin as [?|Hin]; [contradiction|]. rewrite IH; auto.
Qed.

Lemma dict_update_app_r d1 d2 k v :
  k ∉ dict_keys d1 -> dict_update (d1 ++ d2) k v = d1 ++ dict_update d2 k v.
Proof.
  induction d1 as [|[k' v'] d1 IH]; simpl; [reflexivity|].
  rewrite not_elem_of_cons. intros [Hne Hk].
  destruct (String.eqb_spec k k'); [contradiction|]. rewrite IH; auto.
Qed.

Lemma dict_keys_update d k v :
  forall x, x ∈ dict_keys (dict_update d k v) <-> x = k \/ x ∈ dict_keys d.
Proof.
  intros x. induction d as [|[k' v'] d IH]; simpl.
  - rewrite list_elem_of_singleton. rewrite elem_of_nil. tauto.
  - destruct (String.eqb_spec k k') as [->|Hne]; simpl;
      rewrite !elem_of_cons; [|rewrite IH]; tauto.
Qed.

Lemma dict_get_update d k v k' :
  dict_get (dict_update d k v) k' = if String.eqb k' k then Some v else dict_get d k'.
Proof.
  induction d as [|[k0 v0] d IH]; simpl.
  - destruct (String.eqb k' k); reflexivity.
  - destruct (String.eqb_spec k k0) as [->|Hne]; simpl.
    + destruct (String.eqb k' k0); reflexivity.
    + destruct (String.eqb_spec k' k0) as [->|Hne'].
      * destruct (String.eqb_spec k0 k); [congruence | reflexivity].
      * apply IH.
Qed.

Lemma dict_keys_app d1 d2 : dict_keys (d1 ++ d2) = dict_keys d1 ++ dict_keys d2.
Proof. apply map_app. Qed.

End DictFacts.

(** ** Categorisation *)

(** C3. Categorisation sets the category to the result of an exact key
    lookup of the description: the value of the first (for a dictionary, the
    only) entry whose key is that very string when there is one, and null
    when the description is no key; the other cells are untouched.  The
    function is total, so nothing is raised. *)
Theorem add_merchant_category_exact_lookup (d : dict string) (row : Row) :
  Transaction_Description (add_merchant_category d row) = Transaction_Description row /\
  Debit_Amount (add_merchant_category d row) = Debit_Amount row /\
  Category_Family (add_merchant_category d row) = Category_Family row /\
  ((Transaction_Description row ∈ dict_keys d) ->
   exists d1 v d2,
     d = d1 ++ (Transaction_Description row, v) :: d2 /\
     (Transaction_Description row ∉ dict_keys d1) /\
     Category (add_merchant_category d row) = Some v) /\
  ((Transaction_Description row ∉ dict_keys d) ->
   Category (add_merchant_category d row) = None).
Proof.
  repeat split; simpl.
  - intros Hin. destruct (dict_get_key d _ Hin) as [v Hv].
    destruct (proj1 (dict_get_Some d _ v) Hv) as (d1 & d2 & Hd & Hk).
    exists d1, v, d2. auto.
  - intros Hout. apply dict_get_None. exact Hout.
Qed.

(** The key match is case-sensitive. *)
Example add_merchant_category_case_sensitive :
  Category (add_merchant_category [("STARBUCKS", "Coffee")]
                                  (mkRow "starbucks" 3 None None)) = None /\
  Category (add_merchant_category [("STARBUCKS", "Coffee")]
                                  (mkRow "STARBUCKS" 3 None None)) = Some "Coffee".
Proof. split; reflexivity. Qed.

(** ** Family assignment *)


Lemma add_category_family_Category (fm : dict (list string)) :
  forall row, Category (add_category_family fm row) = Category row.
Proof.
  induction fm as [|[f ch] fm IH]; intros row; simpl; [reflexivity|].
  destruct (category_in (Category row) ch); [reflexivity|].
  rewrite IH. reflexivity.
Qed.

Lemma add_category_family_frame (fm : dict (list string)) :
  forall row,
    Transaction_Description (add_category_family fm row) = Transaction_Description row /\
    Debit_Amount (add_category_family fm row) = Debit_Amount row.
Proof.
  induction fm as [|[f ch] fm IH]; intros row; simpl; [auto|].
  destruct (category_in (Category row) ch); [auto|].
  destruct (IH (set_Category_Family row (Some "Wants"))) as [-> ->]. auto.
Qed.







Lemma add_category_family_nil (row : Row) : add_category_family [] row = row.
Proof. reflexivity. Qed.

(** ** Reconciliation *)

Section ReconciliationFacts.

Variable ratio : string -> string -> Z.
Variable lower : string -> string.

Lemma similar_true m k :
  similar ratio lower m k = true <-> (80 <= ratio (lower m) (lower k))%Z.
Proof. unfold similar. apply Z.leb_le. Qed.

Lemma similar_false m k :
  similar ratio lower m k = false <-> (ratio (lower m) (lower k) < 80)%Z.
Proof. unfold similar. apply Z.leb_gt. Qed.

Local Abbreviation similar := (similar ratio lower).
Local Abbreviation match_merchant := (match_merchant ratio lower).
Local Abbreviation reconcile := (reconcile ratio lower).

(** The inner loop stops at the first similar key. *)
Lemma match_merchant_find (d : dict string) (ks : list string) (m : string) :
  match_merchant d ks m =
  match List.find (similar m) ks with
  | Some k =>
      match dict_get d k with
      | Some c => Ok (dict_update d m c, true)
      | None => KeyError k
      end
  | None => Ok (d, false)
  end.
Proof.
  induction ks as [|k ks IH]; simpl; [reflexivity|].
  destruct (similar m k); [reflexivity | exact IH].
Qed.

Lemma find_first {A} (p : A -> bool) (l : list A) :
  match List.find p l with
  | Some x => exists l1 l2, l = l1 ++ x :: l2 /\ Forall (fun y => p y = false) l1 /\ p x = true
  | None => Forall (fun y => p y = false) l
  end.
Proof.
  induction l as [|a l IH]; simpl; [constructor|].
  destruct (p a) eqn:E.
  - exists [], l. split; [reflexivity|]. split; [constructor | exact E].
  - destruct (List.find p l) as [x|].
    + destruct IH as (l1 & l2 & -> & Hl1 & Hx).
      exists (a :: l1), l2. split; [reflexivity|].
      split; [constructor; assumption | exact Hx].
    + constructor; assumption.
Qed.


(** One turn of the outer loop, on the mapping as it stands. *)
Lemma reconcile_step (d : dict string) (s : list string) (m : string) :
  (Forall (fun k => (ratio (lower m) (lower k) < 80)%Z) (dict_keys d) /\
   reconcile d s [m] = Ok (d, s ++ [m]))
  \/ (exists ks1 k ks2 v,
         dict_keys d = ks1 ++ k :: ks2 /\
         Forall (fun k' => (ratio (lower m) (lower k') < 80)%Z) ks1 /\
         (80 <= ratio (lower m) (lower k))%Z /\
         dict_get d k = Some v /\
         reconcile d s [m] = Ok (dict_update d m v, s)).
Proof.
  simpl. rewrite match_merchant_find.
  pose proof (find_first (similar m) (dict_keys d)) as Hf.
  destruct (List.find (similar m) (dict_keys d)) as [k|].
  - right. destruct Hf as (ks1 & ks2 & Hk & Hks1 & Hsim).
    assert (Hin : k ∈ dict_keys d).
    { rewrite Hk. apply elem_of_app. right. apply elem_of_cons. left. reflexivity. }
    destruct (dict_get_key d k Hin) as [v Hv].
    exists ks1, k, ks2, v. rewrite Hv.
    split; [exact Hk|]. split.
    { eapply Forall_impl; [exact Hks1|]. intros k'. apply similar_false. }
    split; [apply similar_true; exact Hsim|]. split; reflexivity.
  - left. split; [|reflexivity].
    eapply Forall_impl; [exact Hf|]. intros k'. apply similar_false.
Qed.

Lemma reconcile_app (d : dict string) (s : list string) (ms1 ms2 : list string) :
  reconcile d s (ms1 ++ ms2) =
  match reconcile d s ms1 with
  | Ok (d', s') => reconcile d' s' ms2
  | KeyError k => KeyError k
  | FileNotFoundError p => FileNotFoundError p
  end.
Proof.
  revert d s. induction ms1 as [|m ms1 IH]; intros d s; simpl; [reflexivity|].
  destruct (match_merchant d (dict_keys d) m) as [[d' [|]]| |]; auto.
Qed.

Lemma reconcile_cons (d : dict string) (s : list string) (m : string) (ms : list string) :
  reconcile d s (m :: ms) =
  match reconcile d s [m] with
  | Ok (d', s') => reconcile d' s' ms
  | KeyError k => KeyError k
  | FileNotFoundError p => FileNotFoundError p
  end.
Proof. apply (reconcile_app d s [m] ms). Qed.

(** The pass never raises, keeps every lookup outside the merchants it
    processes, only gains keys among them, and only lengthens the list of
    leftovers with some of them. *)
Lemma reconcile_effect (ms : list string) :
  forall (d : dict string) (s : list string),
  exists d' left,
    reconcile d s ms = Ok (d', s ++ left) /\
    (forall k, k ∉ ms -> dict_get d' k = dict_get d k) /\
    (forall k, k ∈ dict_keys d' -> k ∈ dict_keys d \/ k ∈ ms) /\
    (forall k, k ∈ dict_keys d -> k ∈ dict_keys d') /\
    (forall x, x ∈ left -> x ∈ ms).
Proof.
  induction ms as [|m ms IH]; intros d s.
  - exists d, []. simpl. rewrite app_nil_r.
    split; [reflexivity|]. split; [reflexivity|].
    split; [auto|]. split; [auto|]. auto.
  - rewrite reconcile_cons.
    destruct (reconcile_step d s m)
      as [[_ ->]|(ks1 & k & ks2 & v & _ & _ & _ & _ & ->)].
    + destruct (IH d (s ++ [m])) as (d' & left & Hr & Hget & Hkeys & Hmono & Hleft).
      exists d', (m :: left). rewrite Hr, <- app_assoc. simpl.
      split; [reflexivity|]. split.
      { intros k' Hk'. apply Hget. intros Hin. apply Hk'. apply elem_of_cons. auto. }
      split.
      { intros k' Hk'. destruct (Hkeys k' Hk'); [auto|]. right. apply elem_of_cons. auto. }
      split; [exact Hmono|].
      intros x Hx. apply elem_of_cons in Hx. apply elem_of_cons.
      destruct Hx; auto.
    + destruct (IH (dict_update d m v) s) as (d' & left & Hr & Hget & Hkeys & Hmono & Hleft).
      exists d', left. rewrite Hr.
      split; [reflexivity|]. split.
      { intros k' Hk'. apply not_elem_of_cons in Hk'. destruct Hk' as [Hne Hk'].
        rewrite (Hget k' Hk'), dict_get_update.
        destruct (String.eqb_spec k' m); [contradiction | reflexivity]. }
      split.
      { intros k' Hk'. rewrite elem_of_cons.
        destruct (Hkeys k' Hk') as [H|H]; [|auto].
        apply dict_keys_update in H. tauto. }
      split.
      { intros k' Hk'. apply Hmono. apply dict_keys_update. auto. }
      intros x Hx. apply elem_of_cons. auto.
Qed.

End ReconciliationFacts.

Section ReconciliationClaims.

Variable ratio : string -> string -> Z.
Variable lower : string -> string.

Local Abbreviation reconcile := (reconcile ratio lower).

Lemma elem_of_report (s : list string) (x : string) : x ∈ s -> x ∈ report s.
Proof.
  destruct s as [|y s]; simpl; [auto|]. intros H. apply elem_of_cons. auto.
Qed.

(** A pass over descriptions that are no keys only appends to the mapping. *)
Lemma reconcile_extends (d0 : dict string) (ms : list string) :
  (forall m, m ∈ ms -> m ∉ dict_keys d0) ->
  forall (acc : dict string) (s : list string),
  exists acc' s',
    reconcile (d0 ++ acc) s ms = Ok (d0 ++ acc', s') /\
    (forall k, k ∈ dict_keys acc' -> k ∈ dict_keys acc \/ k ∈ ms).
Proof.
  induction ms as [|m ms IH]; intros Hfresh acc s.
  - exists acc, s. split; [reflexivity | auto].
  - assert (Hm : m ∉ dict_keys d0) by (apply Hfresh, elem_of_cons; auto).
    assert (Hms : forall x, x ∈ ms -> x ∉ dict_keys d0).
    { intros x Hx. apply Hfresh, elem_of_cons. auto. }
    rewrite reconcile_cons.
    destruct (reconcile_step ratio lower (d0 ++ acc) s m)
      as [[_ ->]|(ks1 & k & ks2 & v & _ & _ & _ & _ & ->)].
    + destruct (IH Hms acc (s ++ [m])) as (acc' & s' & -> & Hk).
      exists acc', s'. split; [reflexivity|].
      intros k Hin. destruct (Hk k Hin); [auto|]. right. apply elem_of_cons. auto.
    + rewrite (dict_update_app_r d0 acc m v Hm).
      destruct (IH Hms (dict_update acc m v) s) as (acc' & s' & -> & Hk).
      exists acc', s'. split; [reflexivity|].
      intros k' Hin. rewrite elem_of_cons.
      destruct (Hk k' Hin) as [H|H]; [|auto].
      apply dict_keys_update in H. tauto.
Qed.

(** C1. Take any description [m] of a pass over distinct descriptions that
    are not keys yet, and let [d1] be the mapping when its turn comes.  Its
    lower-cased form is scored against the lower-cased keys of [d1] in
    iteration order.  Either some key scores at least 80: then the first such
    key [k] is taken whatever the keys after it score, [m] is appended with
    the category of [k], and at the end of the pass [m] still maps to that
    category and is not among the leftovers.  Or every key scores below 80:
    then the mapping is unchanged by the turn, [m] joins the leftovers, and at
    the end of the pass [m] is no key of the mapping and is among the
    leftovers that get printed. *)
Theorem reconcile_first_match_wins
    (d : dict string) (pre : list string) (m : string) (post : list string) :
  NoDup (pre ++ m :: post) ->
  (forall x, x ∈ pre ++ m :: post -> x ∉ dict_keys d) ->
  exists d1 s1 d2 s2 dF sF,
    reconcile d [] pre = Ok (d1, s1) /\
    reconcile d1 s1 [m] = Ok (d2, s2) /\
    reconcile d2 s2 post = Ok (dF, sF) /\
    reconcile d [] (pre ++ m :: post) = Ok (dF, sF) /\
    ((exists ks1 k ks2 v,
         dict_keys d1 = ks1 ++ k :: ks2 /\
         Forall (fun k' => (ratio (lower m) (lower k') < 80)%Z) ks1 /\
         (80 <= ratio (lower m) (lower k))%Z /\
         dict_get d1 k = Some v /\
         d2 = d1 ++ [(m, v)] /\
         s2 = s1 /\
         dict_get dF m = Some v /\
         (m ∉ sF))
     \/ (Forall (fun k' => (ratio (lower m) (lower k') < 80)%Z) (dict_keys d1) /\
         d2 = d1 /\
         s2 = s1 ++ [m] /\
         (m ∉ dict_keys dF) /\
         (m ∈ sF) /\
         (m ∈ report sF))).
Proof.
  intros Hnd Hfresh.
  apply NoDup_app in Hnd. destruct Hnd as (_ & Hpre & Hnd).
  apply NoDup_cons in Hnd. destruct Hnd as [Hpost _].
  assert (Hmpre : m ∉ pre).
  { intros Hin. apply (Hpre m Hin). apply elem_of_cons. auto. }
  assert (Hmd : m ∉ dict_keys d).
  { apply Hfresh. apply elem_of_app. right. apply elem_of_cons. auto. }
  destruct (reconcile_effect ratio lower pre d [])
    as (d1 & s1 & Hr1 & _ & Hkeys1 & _ & Hleft1).
  simpl in Hr1.
  assert (Hmd1 : m ∉ dict_keys d1).
  { intros Hin. destruct (Hkeys1 m Hin); contradiction. }
  assert (Hms1 : m ∉ s1).
  { intros Hin. apply Hmpre. apply Hleft1. exact Hin. }
  assert (Hall : forall d2 s2,
             reconcile d1 s1 [m] = Ok (d2, s2) ->
             exists dF left,
               reconcile d2 s2 post = Ok (dF, s2 ++ left) /\
               reconcile d [] (pre ++ m :: post) = Ok (dF, s2 ++ left) /\
               dict_get dF m = dict_get d2 m /\
               (forall k, k ∈ dict_keys dF -> k ∈ dict_keys d2 \/ k ∈ post) /\
               (forall x, x ∈ left -> x ∈ post)).
  { intros d2 s2 Hstep.
    destruct (reconcile_effect ratio lower post d2 s2)
      as (dF & left & HrF & HgetF & HkeysF & _ & HleftF).
    exists dF, left. split; [exact HrF|]. split.
    { rewrite reconcile_app, Hr1, reconcile_cons, Hstep. exact HrF. }
    split; [apply HgetF; exact Hpost|]. split; assumption. }
  destruct (reconcile_step ratio lower d1 s1 m)
    as [[Hno Hstep]|(ks1 & k & ks2 & v & Hk & Hks1 & Hsim & Hv & Hstep)].
  - destruct (Hall _ _ Hstep) as (dF & left & HrF & Htot & _ & HkeysF & HleftF).
    exists d1, s1, d1, (s1 ++ [m]), dF, ((s1 ++ [m]) ++ left).
    split; [exact Hr1|]. split; [exact Hstep|]. split; [exact HrF|].
    split; [exact Htot|]. right.
    assert (HmsF : m ∈ (s1 ++ [m]) ++ left).
    { apply elem_of_app. left. apply elem_of_app. right.
      apply list_elem_of_singleton. reflexivity. }
    split; [exact Hno|]. split; [reflexivity|]. split; [reflexivity|].
    split; [|split; [exact HmsF | apply elem_of_report; exact HmsF]].
    intros Hin. destruct (HkeysF m Hin); contradiction.
  - destruct (Hall _ _ Hstep) as (dF & left & HrF & Htot & HgetF & _ & HleftF).
    exists d1, s1, (dict_update d1 m v), s1, dF, (s1 ++ left).
    split; [exact Hr1|]. split; [exact Hstep|]. split; [exact HrF|].
    split; [exact Htot|]. left.
    exists ks1, k, ks2, v.
    split; [exact Hk|]. split; [exact Hks1|]. split; [exact Hsim|].
    split; [exact Hv|]. split; [apply dict_update_fresh; exact Hmd1|].
    split; [reflexivity|]. split.
    + rewrite HgetF, dict_get_update, String.eqb_refl. reflexivity.
    + intros Hin. apply elem_of_app in Hin. destruct Hin as [Hin|Hin].
      * contradiction.
      * apply Hpost. apply HleftF. exact Hin.
Qed.

(** C9. A pass over descriptions that are not keys of the mapping never
    raises and only appends entries: the mapping afterwards is the mapping
    before followed by new entries, every key and value present before is
    still there, each new key is one of the descriptions given, and the
    statement and the family mapping are untouched. *)
Theorem process_unrecognized_merchants_only_grows {R : Type}
    (self : ExpenseTracker R) (w : World) (merchants : list string) :
  (forall m, m ∈ merchants -> m ∉ dict_keys (merchant_mapping self)) ->
  exists self' w' added,
    process_unrecognized_merchants ratio lower self w merchants = Ok (self', w') /\
    merchant_mapping self' = merchant_mapping self ++ added /\
    (forall k, k ∈ dict_keys added -> k ∈ merchants) /\
    (forall k v, dict_get (merchant_mapping self) k = Some v ->
                 dict_get (merchant_mapping self') k = Some v) /\
    (forall k, k ∈ dict_keys (merchant_mapping self) ->
               k ∈ dict_keys (merchant_mapping self')) /\
    statement self' = statement self /\
    expense_category_family_mapping self' = expense_category_family_mapping self.
Proof.
  intros Hfresh.
  destruct (reconcile_extends (merchant_mapping self) merchants Hfresh [] [])
    as (added & still & Hr & Hk).
  rewrite app_nil_r in Hr.
  unfold process_unrecognized_merchants. rewrite Hr.
  eexists _, _, added. split; [reflexivity|]. simpl.
  split; [reflexivity|]. split.
  { intros k Hin. destruct (Hk k Hin) as [H|H]; [|exact H].
    apply elem_of_nil in H. contradiction. }
  split.
  { intros k v Hget. rewrite dict_get_app, Hget. reflexivity. }
  split.
  { intros k Hin. rewrite dict_keys_app. apply elem_of_app. auto. }
  split; reflexivity.
Qed.

End ReconciliationClaims.

(** ** Grouping *)

Lemma str_lt_trans a b c : str_lt a b -> str_lt b c -> str_lt a c.
Proof.
  unfold str_lt. intros H1 H2.
  apply OrderedTypeEx.String_as_OT.cmp_lt.
  apply OrderedTypeEx.String_as_OT.cmp_lt in H1, H2.
  eapply OrderedTypeEx.String_as_OT.lt_trans; eassumption.
Qed.

Lemma str_lt_irrefl a : ~ str_lt a a.
Proof.
  unfold str_lt. intros H.
  assert (E : String.compare a a = Eq) by (apply OrderedTypeEx.String_as_OT.cmp_eq; reflexivity).
  congruence.
Qed.

Lemma str_compare_Gt a b : String.compare a b = Gt -> str_lt b a.
Proof.
  unfold str_lt. intros H. rewrite String.compare_antisym, H. reflexivity.
Qed.

Lemma group_add_keys (k : string) (a : Q) (g : dict Q) :
  forall x, x ∈ dict_keys (group_add k a g) <-> x = k \/ x ∈ dict_keys g.
Proof.
  intros x. induction g as [|[k' y] g IH]; simpl.
  - rewrite list_elem_of_singleton, elem_of_nil. tauto.
  - destruct (String.compare k k') eqn:E; simpl; rewrite !elem_of_cons.
    + apply String.compare_eq_iff in E. subst k'. tauto.
    + simpl. tauto.
    + rewrite IH. tauto.
Qed.

Lemma group_add_sorted (k : string) (a : Q) (g : dict Q) :
  StronglySorted str_lt (dict_keys g) ->
  StronglySorted str_lt (dict_keys (group_add k a g)).
Proof.
  induction g as [|[k' y] g IH]; simpl; intros Hs.
  - repeat constructor.
  - apply StronglySorted_inv in Hs. destruct Hs as [Hs Hall].
    destruct (String.compare k k') eqn:E; simpl.
    + constructor; assumption.
    + constructor; [constructor; assumption|].
      constructor; [exact E|].
      eapply Forall_impl; [exact Hall|]. intros z Hz.
      eapply str_lt_trans; [exact E | exact Hz].
    + constructor; [apply IH; exact Hs|].
      apply Forall_forall. intros z Hz.
      apply group_add_keys in Hz. destruct Hz as [->|Hz].
      * apply str_compare_Gt. exact E.
      * rewrite Forall_forall in Hall. apply Hall. exact Hz.
Qed.

Lemma group_add_total (k : string) (a : Q) (g : dict Q) (k0 : string) :
  StronglySorted str_lt (dict_keys g) ->
  (total_of (group_add k a g) k0 ==
   total_of g k0 + (if String.eqb k0 k then a else 0))%Q.
Proof.
  unfold total_of. induction g as [|[k' y] g IH]; simpl; intros Hs.
  - destruct (String.eqb k0 k); ring.
  - apply StronglySorted_inv in Hs. destruct Hs as [Hs Hall].
    destruct (String.compare k k') eqn:E; simpl.
    + apply String.compare_eq_iff in E. subst k'.
      destruct (String.eqb k0 k); ring.
    + destruct (String.eqb_spec k0 k) as [Heq|Hne]; [subst k0|].
      * destruct (String.eqb_spec k k') as [Heq|Hne']; [subst k'|].
        { exfalso. eapply str_lt_irrefl. exact E. }
        assert (Hout : k ∉ dict_keys g).
        { intros Hin. rewrite Forall_forall in Hall.
          apply (str_lt_irrefl k). eapply str_lt_trans; [exact E | apply Hall, Hin]. }
        apply dict_get_None in Hout. rewrite Hout. ring.
      * ring.
    + destruct (String.eqb_spec k0 k') as [Heq|Hne]; [subst k0|].
      * destruct (String.eqb_spec k' k) as [Heq|Hne']; [subst k'|].
        { exfalso. apply (str_lt_irrefl k). apply str_compare_Gt. exact E. }
        ring.
      * apply IH. exact Hs.
Qed.

Lemma group_add_sum (k : string) (a : Q) (g : dict Q) :
  (series_sum (map snd (group_add k a g)) == series_sum (map snd g) + a)%Q.
Proof.
  induction g as [|[k' y] g IH]; simpl.
  - ring.
  - destruct (String.compare k k'); simpl; [ring | ring | rewrite IH; ring].
Qed.

Lemma group_add_nonneg (k : string) (a : Q) (g : dict Q) :
  (0 <= a)%Q ->
  Forall (fun x => (0 <= x)%Q) (map snd g) ->
  Forall (fun x => (0 <= x)%Q) (map snd (group_add k a g)).
Proof.
  intros Ha. induction g as [|[k' y] g IH]; simpl; intros Hg.
  - constructor; [exact Ha | constructor].
  - apply Forall_cons in Hg. destruct Hg as [Hy Hg].
    destruct (String.compare k k'); simpl.
    + constructor; [lra | exact Hg].
    + constructor; [exact Ha|]. constructor; assumption.
    + constructor; [exact Hy | apply IH; exact Hg].
Qed.

Lemma key_total_cons key k row df :
  (key_total key k (row :: df) ==
   (match key row with
    | Some k' => if String.eqb k k' then Debit_Amount row else 0
    | None => 0
    end) + key_total key k df)%Q.
Proof.
  unfold key_total. rewrite filter_cons.
  destruct (decide (key row = Some k)) as [Heq|Hne].
  - rewrite Heq, String.eqb_refl. simpl. reflexivity.
  - destruct (key row) as [k'|]; [|ring].
    destruct (String.eqb_spec k k') as [Heq|_]; [subst; congruence | ring].
Qed.

Lemma keyed_total_cons key row df :
  (keyed_total key (row :: df) ==
   (match key row with Some _ => Debit_Amount row | None => 0 end)
   + keyed_total key df)%Q.
Proof.
  unfold keyed_total. rewrite filter_cons.
  destruct (decide (is_null (key row) = false)) as [Hk|Hk];
    destruct (key row); simpl in *; try discriminate; try congruence; ring.
Qed.

(** What the fold of [groupby_sum] does to a sorted table. *)
Lemma groupby_fold (key : Row -> option string) (df : list Row) :
  forall g : dict Q,
    StronglySorted str_lt (dict_keys g) ->
    StronglySorted str_lt
      (dict_keys (fold_left
         (fun g row => match key row with
                       | Some k => group_add k (Debit_Amount row) g
                       | None => g
                       end) df g)) /\
    (forall k,
        k ∈ dict_keys (fold_left
          (fun g row => match key row with
                        | Some k => group_add k (Debit_Amount row) g
                        | None => g
                        end) df g)
        <-> k ∈ dict_keys g \/ exists row, row ∈ df /\ key row = Some k) /\
    (forall k,
        total_of (fold_left
          (fun g row => match key row with
                        | Some k => group_add k (Debit_Amount row) g
                        | None => g
                        end) df g) k
        == total_of g k + key_total key k df)%Q /\
    (series_sum (map snd (fold_left
          (fun g row => match key row with
                        | Some k => group_add k (Debit_Amount row) g
                        | None => g
                        end) df g))
     == series_sum (map snd g) + keyed_total key df)%Q /\
    (Forall (fun row => (0 <= Debit_Amount row)%Q) df ->
     Forall (fun x => (0 <= x)%Q) (map snd g) ->
     Forall (fun x => (0 <= x)%Q)
       (map snd (fold_left
          (fun g row => match key row with
                        | Some k => group_add k (Debit_Amount row) g
                        | None => g
                        end) df g))).
Proof.
  induction df as [|row df IH]; intros g Hs; simpl.
  - split; [exact Hs|]. split.
    { intros k. split; [auto|]. intros [H|(row & Hin & _)]; [exact H|].
      apply elem_of_nil in Hin. contradiction. }
    split; [intros k; unfold key_total; simpl; ring|].
    split; [unfold keyed_total; simpl; ring|]. auto.
  - destruct (key row) as [k0|] eqn:Ek.
    + destruct (IH (group_add k0 (Debit_Amount row) g) (group_add_sorted _ _ _ Hs))
        as (H1 & H2 & H3 & H4 & H5).
      split; [exact H1|]. split.
      { intros k. rewrite H2, group_add_keys. split.
        - intros [[->|H]|(r & Hin & Hr)]; [right|left|right]; auto.
          + exists row. split; [apply elem_of_cons; auto | exact Ek].
          + exists r. split; [apply elem_of_cons; auto | exact Hr].
        - intros [H|(r & Hin & Hr)]; [auto|].
          apply elem_of_cons in Hin. destruct Hin as [->|Hin].
          + left. left. congruence.
          + right. exists r. auto. }
      split.
      { intros k. rewrite H3, group_add_total by exact Hs.
        rewrite key_total_cons, Ek. ring. }
      split.
      { rewrite H4, group_add_sum, keyed_total_cons, Ek. ring. }
      intros Hdf Hg. apply Forall_cons in Hdf. destruct Hdf as [Hrow Hdf].
      apply H5; [exact Hdf|]. apply group_add_nonneg; assumption.
    + destruct (IH g Hs) as (H1 & H2 & H3 & H4 & H5).
      split; [exact H1|]. split.
      { intros k. rewrite H2. split.
        - intros [H|(r & Hin & Hr)]; [auto|]. right. exists r.
          split; [apply elem_of_cons; auto | exact Hr].
        - intros [H|(r & Hin & Hr)]; [auto|].
          apply elem_of_cons in Hin. destruct Hin as [->|Hin]; [congruence|].
          right. exists r. auto. }
      split.
      { intros k. rewrite H3, key_total_cons, Ek. ring. }
      split.
      { rewrite H4, keyed_total_cons, Ek. ring. }
      intros Hdf Hg. apply Forall_cons in Hdf. destruct Hdf as [_ Hdf]. auto.
Qed.

(** The table of [groupby_sum]: keys ascending, one key per value of the key
    column that occurs, each with the sum of its rows' amounts. *)
Lemma groupby_sum_spec (key : Row -> option string) (df : list Row) :
  StronglySorted str_lt (dict_keys (groupby_sum key df)) /\
  (forall k, k ∈ dict_keys (groupby_sum key df)
             <-> exists row, row ∈ df /\ key row = Some k) /\
  (forall k, total_of (groupby_sum key df) k == key_total key k df)%Q /\
  (series_sum (map snd (groupby_sum key df)) == keyed_total key df)%Q /\
  (Forall (fun row => (0 <= Debit_Amount row)%Q) df ->
   Forall (fun x => (0 <= x)%Q) (map snd (groupby_sum key df))).
Proof.
  destruct (groupby_fold key df [] (SSorted_nil _)) as (H1 & H2 & H3 & H4 & H5).
  unfold groupby_sum. split; [exact H1|]. split.
  { intros k. rewrite H2. split; [|auto].
    intros [H|H]; [apply elem_of_nil in H; contradiction | exact H]. }
  split; [intros k; rewrite H3; unfold total_of; simpl; ring|].
  split; [rewrite H4; simpl; ring|].
  intros Hdf. apply H5; [exact Hdf | constructor].
Qed.

(** ** Totals per category *)

(** C7. The by-category view has one line per category that occurs, the
    lines are in strictly ascending order of the category name, each line
    carries the sum of the debit amounts of the rows of that category, and a
    line is a category and a total, with no percentage.  On amounts 10, 20, 30
    in "A" and 40 in "B" the view is A = 60, B = 40. *)
Theorem expenses_by_category_sorted_sums (df : list Row) :
  StronglySorted str_lt (dict_keys (expenses_by_category df)) /\
  (forall c, c ∈ dict_keys (expenses_by_category df)
             <-> exists row, row ∈ df /\ Category row = Some c) /\
  (forall c x,
      dict_get (expenses_by_category df) c = Some x ->
      (x == series_sum (map Debit_Amount
                            (filter (fun row => Category row = Some c) df)))%Q) /\
  expenses_by_category
    [mkRow "m1" 10 (Some "A") None; mkRow "m2" 40 (Some "B") None;
     mkRow "m3" 20 (Some "A") None; mkRow "m4" 30 (Some "A") None]
  = [("A", 60%Q); ("B", 40%Q)].
Proof.
  destruct (groupby_sum_spec Category df) as (H1 & H2 & H3 & _).
  split; [exact H1|]. split; [exact H2|]. split; [|reflexivity].
  intros c x Hget. specialize (H3 c). unfold total_of in H3.
  unfold expenses_by_category in Hget. rewrite Hget in H3. exact H3.
Qed.

(** ** Rounding *)

Lemma round_half_even_nearest (q : Q) :
  (Qabs (inject_Z (round_half_even q) - q) <= 1 # 2)%Q /\
  ((Qabs (inject_Z (round_half_even q) - q) == 1 # 2)%Q ->
   Z.even (round_half_even q) = true).
Proof.
  unfold round_half_even.
  pose proof (Qfloor_le q) as Hlo. pose proof (Qlt_floor q) as Hhi.
  rewrite inject_Z_plus in Hhi. change (inject_Z 1) with 1%Q in Hhi.
  destruct (q - inject_Z (Qfloor q) ?= 1 # 2)%Q eqn:E.
  - apply Qeq_alt in E.
    destruct (Z.even (Qfloor q)) eqn:Ev.
    + split; [apply Qabs_Qle_condition; lra | intros _; exact Ev].
    + split.
      * rewrite inject_Z_plus. change (inject_Z 1) with 1%Q.
        apply Qabs_Qle_condition; lra.
      * intros _. rewrite Z.even_add, Ev. reflexivity.
  - apply Qlt_alt in E. split; [apply Qabs_Qle_condition; lra|].
    intros Habs. exfalso.
    rewrite Qabs_neg in Habs by lra. lra.
  - apply Qgt_alt in E. rewrite inject_Z_plus. change (inject_Z 1) with 1%Q.
    split; [apply Qabs_Qle_condition; lra|].
    intros Habs. exfalso.
    rewrite Qabs_pos in Habs by lra. lra.
Qed.


(** ** The family breakdown *)

Lemma family_lines_totals (df : list Row) :
  map fr_Debit_Amount (get_expenses_by_category_families df)
  = map snd (groupby_sum Category_Family df).
Proof.
  unfold get_expenses_by_category_families. rewrite map_map. reflexivity.
Qed.


Lemma family_line_inv (df : list Row) (line : FamilyRow) :
  line ∈ get_expenses_by_category_families df ->
  (fr_Category_Family line, fr_Debit_Amount line) ∈ groupby_sum Category_Family df /\
  fr_Percentage line =
  float_round
    (float_mul
       (float_div (fr_Debit_Amount line)
          (series_sum (map fr_Debit_Amount (get_expenses_by_category_families df))))
       100%Q).
Proof.
  rewrite family_lines_totals.
  unfold get_expenses_by_category_families.
  intros Hin. apply list_elem_of_fmap in Hin.
  destruct Hin as ([k x] & -> & Hin). simpl. split; [exact Hin | reflexivity].
Qed.







(** ** The pipeline *)




Section Pipeline.

Variable ratio : string -> string -> Z.
Variable lower : string -> string.
Variable set_iter : list string -> list string.

(** [process_transactions] never raises; its statement is the debit rows
    categorised with the mapping as loaded and then given a family, its
    mapping is the reconciled one, which is also what is written to
    [MERCHANT_MAPPING]. *)
Lemma process_transactions_outcome (self : ExpenseTracker RawRow) (w : World) :
  exists d' still,
    reconcile ratio lower (merchant_mapping self) []
      (set_iter (unrecognized_descriptions
         (map (add_merchant_category (merchant_mapping self))
              (drop_credits (statement self)))))
    = Ok (d', still) /\
    process_transactions ratio lower set_iter self w
    = Ok (mkTracker
            (map (add_category_family (expense_category_family_mapping self))
               (map (add_merchant_category (merchant_mapping self))
                  (drop_credits (statement self))))
            d' (expense_category_family_mapping self),
          mkWorld (<[MERCHANT_MAPPING := d']> (files w))
                  (stdout w ++ report still)).
Proof.
  destruct (reconcile_effect ratio lower
              (set_iter (unrecognized_descriptions
                 (map (add_merchant_category (merchant_mapping self))
                      (drop_credits (statement self)))))
              (merchant_mapping self) [])
    as (d' & still & Hr & _).
  simpl in Hr. exists d', still. split; [exact Hr|].
  unfold process_transactions, process_unrecognized_merchants. simpl.
  rewrite Hr. reflexivity.
Qed.

End Pipeline.

Lemma dict_get_elem {V} (d : dict V) (k : string) (v : V) :
  dict_get d k = Some v -> (k, v) ∈ d.
Proof.
  intros H. apply dict_get_Some in H. destruct H as (d1 & d2 & -> & _).
  apply elem_of_app. right. apply elem_of_cons. left. reflexivity.
Qed.


Section PipelineClaims.

Variable ratio : string -> string -> Z.
Variable lower : string -> string.
Variable set_iter : list string -> list string.


End PipelineClaims.

(** ** Dependence on the iteration order of the set *)

Section OrderFacts.

Variable ratio : string -> string -> Z.
Variable lower : string -> string.

Local Abbreviation similar := (similar ratio lower).
Local Abbreviation reconcile := (reconcile ratio lower).
Local Abbreviation learned := (learned ratio lower).
Local Abbreviation learned_entries := (learned_entries ratio lower).

Lemma learned_entries_keys (d : dict string) (ms : list string) :
  forall k, k ∈ dict_keys (learned_entries d ms) -> k ∈ ms.
Proof.
  induction ms as [|m ms IH]; simpl; intros k Hk.
  - exact Hk.
  - apply elem_of_cons. destruct (learned d m); simpl in Hk.
    + apply elem_of_cons in Hk. destruct Hk; auto.
    + auto.
Qed.





End OrderFacts.





Section OrderClaims.

Variable ratio : string -> string -> Z.
Variable lower : string -> string.


End OrderClaims.

(** ** Closed examples *)

(** The first similar key wins although the next one scores higher. *)
Example reconcile_first_not_best :
  indel_ratio (ascii_lower "TESCO STORES 42") (ascii_lower "TESCO STORES") = 89%Z /\
  indel_ratio (ascii_lower "TESCO STORES 42") (ascii_lower "TESCO STORES 4") = 97%Z /\
  reconcile indel_ratio ascii_lower tesco_mapping []
            ["NOBODY"; "TESCO STORES 42"; "SHELL"]
  = Ok (tesco_mapping ++ [("TESCO STORES 42", "Groceries")], ["NOBODY"; "SHELL"]).
Proof. repeat split; vm_compute; reflexivity. Qed.

Lemma reconcile_first_match_wins_witness :
  exists d1 s1 d2 s2 dF sF,
    reconcile indel_ratio ascii_lower tesco_mapping [] ["NOBODY"] = Ok (d1, s1) /\
    reconcile indel_ratio ascii_lower d1 s1 ["TESCO STORES 42"] = Ok (d2, s2) /\
    reconcile indel_ratio ascii_lower d2 s2 ["SHELL"] = Ok (dF, sF) /\
    reconcile indel_ratio ascii_lower tesco_mapping []
              (["NOBODY"] ++ "TESCO STORES 42" :: ["SHELL"]) = Ok (dF, sF) /\
    ((exists ks1 k ks2 v,
         dict_keys d1 = ks1 ++ k :: ks2 /\
         Forall (fun k' => (indel_ratio (ascii_lower "TESCO STORES 42")
                                        (ascii_lower k') < 80)%Z) ks1 /\
         (80 <= indel_ratio (ascii_lower "TESCO STORES 42") (ascii_lower k))%Z /\
         dict_get d1 k = Some v /\
         d2 = d1 ++ [("TESCO STORES 42", v)] /\
         s2 = s1 /\
         dict_get dF "TESCO STORES 42" = Some v /\
         ("TESCO STORES 42" ∉ sF))
     \/ (Forall (fun k' => (indel_ratio (ascii_lower "TESCO STORES 42")
                                        (ascii_lower k') < 80)%Z) (dict_keys d1) /\
         d2 = d1 /\
         s2 = s1 ++ ["TESCO STORES 42"] /\
         ("TESCO STORES 42" ∉ dict_keys dF) /\
         ("TESCO STORES 42" ∈ sF) /\
         ("TESCO STORES 42" ∈ report sF))).
Proof.
  apply (reconcile_first_match_wins indel_ratio ascii_lower tesco_mapping
           ["NOBODY"] "TESCO STORES 42" ["SHELL"]).
  - apply (bool_decide_unpack _). vm_compute. exact I.
  - apply Forall_forall. apply (bool_decide_unpack _). vm_compute. exact I.
Defined.

Lemma process_unrecognized_merchants_only_grows_witness :
  exists (self' : ExpenseTracker RawRow) w' added,
    process_unrecognized_merchants indel_ratio ascii_lower isolated_tracker empty_world
      ["TESCO STORES 42"; "SHELL GARAGE"] = Ok (self', w') /\
    merchant_mapping self' = merchant_mapping isolated_tracker ++ added.
Proof.
  destruct (process_unrecognized_merchants_only_grows indel_ratio ascii_lower
              isolated_tracker empty_world ["TESCO STORES 42"; "SHELL GARAGE"])
    as (self' & w' & added & Hrun & Hmap & _).
  - apply Forall_forall. apply (bool_decide_unpack _). vm_compute. exact I.
  - exists self', w', added. split; [exact Hrun | exact Hmap].
Defined.


(** On [isolated_tracker] the by-category total is 5 and the by-family total
    is 47: the two rows without category are counted under "Wants" only. *)
Example isolated_tracker_views :
  exists self' w',
    process_transactions indel_ratio ascii_lower iter_forward isolated_tracker empty_world
    = Ok (self', w') /\
    expenses_by_category (statement self') = [("Groceries", 5%Q)] /\
    get_expenses_by_category_families (statement self')
    = [mkFamilyRow "Needs" 5 (Num 11); mkFamilyRow "Wants" 42 (Num 89)].
Proof.
  destruct (process_transactions_outcome indel_ratio ascii_lower iter_forward
              isolated_tracker empty_world) as (d' & still & _ & Hrun).
  eexists _, _. split; [exact Hrun|]. split; vm_compute; reflexivity.
Qed.




(** ** Persistence *)

Section Persistence.

Variable ratio : string -> string -> Z.
Variable lower : string -> string.
Variable set_iter : list string -> list string.

(** The only file written is [MERCHANT_MAPPING], with the mapping in memory. *)
Lemma process_transactions_files
    (self : ExpenseTracker RawRow) (w : World)
    (self' : ExpenseTracker Row) (w' : World) :
  process_transactions ratio lower set_iter self w = Ok (self', w') ->
  files w' = <[MERCHANT_MAPPING := merchant_mapping self']> (files w).
Proof.
  destruct (process_transactions_outcome ratio lower set_iter self w)
    as (d' & still & _ & Hrun).
  rewrite Hrun. intros [= <- <-]. reflexivity.
Qed.

(** With the default path the mapping read back is the mapping in memory. *)
Lemma reload_default_path
    (self : ExpenseTracker RawRow) (w : World)
    (self' : ExpenseTracker Row) (w' : World)
    (st : list RawRow) (fm : dict (list string)) :
  process_transactions ratio lower set_iter self w = Ok (self', w') ->
  ExpenseTracker_init w' st MERCHANT_MAPPING fm
  = Ok (mkTracker st (merchant_mapping self') fm).
Proof.
  intros Hrun. unfold ExpenseTracker_init.
  rewrite (process_transactions_files _ _ _ _ Hrun), lookup_insert_eq. reflexivity.
Qed.

(** With any other path the file read at start is not touched, so reading
    it again gives the mapping as it was before the pass. *)
Lemma reload_other_path
    (self : ExpenseTracker RawRow) (w : World)
    (self' : ExpenseTracker Row) (w' : World)
    (path : string) (st : list RawRow) (fm : dict (list string)) :
  path <> MERCHANT_MAPPING ->
  process_transactions ratio lower set_iter self w = Ok (self', w') ->
  ExpenseTracker_init w' st path fm = ExpenseTracker_init w st path fm.
Proof.
  intros Hne Hrun. unfold ExpenseTracker_init.
  rewrite (process_transactions_files _ _ _ _ Hrun).
  rewrite lookup_insert_ne by congruence. reflexivity.
Qed.

End Persistence.

(** C6 at a failing input.  The tracker is built on "custom.json"; the pass
    learns "STARBUCKS #1234 " in memory and writes the full mapping to
    [MERCHANT_MAPPING]; "custom.json" is left as it was, and a tracker built
    again on it does not know the learned description. *)
Theorem persisted_mapping_ignores_configured_path :
  custom_path <> MERCHANT_MAPPING /\
  exists self self' w' reloaded,
    ExpenseTracker_init custom_world starbucks_statement custom_path
                        [("Wants", ["Coffee"])] = Ok self /\
    process_transactions indel_ratio ascii_lower iter_forward self custom_world
    = Ok (self', w') /\
    merchant_mapping self'
    = [("STARBUCKS #1234", "Coffee"); ("STARBUCKS #1234 ", "Coffee")] /\
    files w' !! MERCHANT_MAPPING = Some (merchant_mapping self') /\
    files w' !! custom_path = Some [("STARBUCKS #1234", "Coffee")] /\
    ExpenseTracker_init w' starbucks_statement custom_path
                        [("Wants", ["Coffee"])] = Ok reloaded /\
    dict_get (merchant_mapping reloaded) "STARBUCKS #1234 " = None.
Proof.
  split; [discriminate|].
  assert (Hinit :
    ExpenseTracker_init custom_world starbucks_statement custom_path
                        [("Wants", ["Coffee"])]
    = Ok (mkTracker starbucks_statement [("STARBUCKS #1234", "Coffee")]
                    [("Wants", ["Coffee"])])).
  { unfold ExpenseTracker_init, custom_world. simpl.
    rewrite lookup_insert_eq. reflexivity. }
  destruct (process_transactions_outcome indel_ratio ascii_lower iter_forward
              (mkTracker starbucks_statement [("STARBUCKS #1234", "Coffee")]
                         [("Wants", ["Coffee"])]) custom_world)
    as (d' & still & Hr & Hrun).
  vm_compute in Hr. injection Hr as <- <-.
  eexists _, _, _, _. split; [exact Hinit|]. split; [exact Hrun|].
  split; [reflexivity|]. simpl.
  split; [apply lookup_insert_eq|].
  assert (Hfile :
    <[MERCHANT_MAPPING := [("STARBUCKS #1234", "Coffee"); ("STARBUCKS #1234 ", "Coffee")]]>
      (<[custom_path := [("STARBUCKS #1234", "Coffee")]]> (∅ : gmap string (dict string)))
      !! custom_path
    = Some [("STARBUCKS #1234", "Coffee")]).
  { rewrite lookup_insert_ne by discriminate. apply lookup_insert_eq. }
  split; [exact Hfile|].
  unfold ExpenseTracker_init. simpl.
  rewrite lookup_insert_ne by discriminate. rewrite lookup_insert_eq.
  split; reflexivity.
Qed.


(** * Further properties *)

(** ** Family assignment as a search *)

Lemma add_category_family_default (fm : dict (list string)) :
  forall row,
    Category_Family row = Some "Wants" ->
    Category_Family (add_category_family fm row)
    = Some (family_first_match fm (Category row)).
Proof.
  induction fm as [|[f ch] fm IH]; intros row Hw; simpl.
  - exact Hw.
  - destruct (category_in (Category row) ch); [reflexivity|].
    apply (IH (set_Category_Family row (Some "Wants"))). reflexivity.
Qed.

(** X1. With at least one family, the overwrite-then-break loop computes the
    plain search "first family containing the category, else Wants": the
    family it writes depends on the category only, not on the cell it
    overwrites, and assigning twice is the same as assigning once. *)
Theorem add_category_family_is_first_match (fm : dict (list string)) (row : Row) :
  fm <> [] ->
  Category_Family (add_category_family fm row)
  = Some (family_first_match fm (Category row)) /\
  (forall row', Category row' = Category row ->
     Category_Family (add_category_family fm row')
     = Category_Family (add_category_family fm row)) /\
  add_category_family fm (add_category_family fm row) = add_category_family fm row.
Proof.
  intros Hne.
  assert (Hclosed : forall r,
             Category_Family (add_category_family fm r)
             = Some (family_first_match fm (Category r))).
  { intros r. destruct fm as [|[f ch] fm]; [congruence|]. simpl.
    destruct (category_in (Category r) ch); [reflexivity|].
    apply (add_category_family_default fm (set_Category_Family r (Some "Wants"))).
    reflexivity. }
  split; [apply Hclosed|]. split.
  - intros row' Hc. rewrite !Hclosed, Hc. reflexivity.
  - pose proof (Hclosed (add_category_family fm row)) as H2.
    pose proof (Hclosed row) as H1.
    pose proof (add_category_family_Category fm (add_category_family fm row)) as Hc2.
    pose proof (add_category_family_frame fm (add_category_family fm row)) as [Hd2 Ha2].
    rewrite add_category_family_Category in H2.
    destruct (add_category_family fm (add_category_family fm row)) as [d2 a2 c2 f2].
    destruct (add_category_family fm row) as [d1 a1 c1 f1].
    simpl in *. congruence.
Qed.

Lemma add_category_family_is_first_match_witness :
  Category_Family
    (add_category_family [("Needs", ["Groceries"]); ("Fun", ["Groceries"; "Cinema"])]
                         (mkRow "TESCO" 12 (Some "Groceries") (Some "Fun")))
  = Some (family_first_match [("Needs", ["Groceries"]); ("Fun", ["Groceries"; "Cinema"])]
                             (Some "Groceries")).
Proof.
  destruct (add_category_family_is_first_match
              [("Needs", ["Groceries"]); ("Fun", ["Groceries"; "Cinema"])]
              (mkRow "TESCO" 12 (Some "Groceries") (Some "Fun"))) as [H _].
  - discriminate.
  - exact H.
Defined.

(** ** The family view *)



(** ** Percentages *)

Lemma round_half_even_Qeq (q1 q2 : Q) :
  (q1 == q2)%Q -> round_half_even q1 = round_half_even q2.
Proof.
  intros H. unfold round_half_even.
  rewrite (Qfloor_comp _ _ H).
  assert (Hc : (q1 - inject_Z (Qfloor q2) ?= 1 # 2)%Q
               = (q2 - inject_Z (Qfloor q2) ?= 1 # 2)%Q).
  { apply Qcompare_comp; [rewrite H; reflexivity | reflexivity]. }
  rewrite Hc. reflexivity.
Qed.

Lemma round_half_even_monotone (q1 q2 : Q) :
  (q1 <= q2)%Q -> (round_half_even q1 <= round_half_even q2)%Z.
Proof.
  intros Hle.
  destruct (Z.le_gt_cases (round_half_even q1) (round_half_even q2)) as [H|H];
    [exact H|].
  exfalso.
  destruct (round_half_even_nearest q1) as [Hn1 _].
  destruct (round_half_even_nearest q2) as [Hn2 _].
  apply Qabs_Qle_condition in Hn1, Hn2.
  assert (Hz : (inject_Z (round_half_even q2) + 1 <= inject_Z (round_half_even q1))%Q).
  { change 1%Q with (inject_Z 1). rewrite <- inject_Z_plus, <- Zle_Qle. lia. }
  assert (Heq : (q1 == q2)%Q) by lra.
  rewrite (round_half_even_Qeq _ _ Heq) in H. lia.
Qed.

Lemma percentage_of_line (df : list Row) (line : FamilyRow) :
  ~ (series_sum (map fr_Debit_Amount (get_expenses_by_category_families df)) == 0)%Q ->
  line ∈ get_expenses_by_category_families df ->
  fr_Percentage line =
  Num (inject_Z
         (round_half_even
            (fr_Debit_Amount line
             / series_sum (map fr_Debit_Amount (get_expenses_by_category_families df))
             * 100))).
Proof.
  intros HT Hin. destruct (family_line_inv df line Hin) as [_ ->].
  unfold float_div.
  destruct (Qeq_bool _ 0) eqn:E; [|reflexivity].
  apply Qeq_bool_iff in E. contradiction.
Qed.

(** X3. With a positive grand total, a line with a larger total never gets
    a smaller percentage. *)
Theorem percentage_monotone (df : list Row) (line1 line2 : FamilyRow) :
  (0 < series_sum (map fr_Debit_Amount (get_expenses_by_category_families df)))%Q ->
  line1 ∈ get_expenses_by_category_families df ->
  line2 ∈ get_expenses_by_category_families df ->
  (fr_Debit_Amount line1 <= fr_Debit_Amount line2)%Q ->
  exists z1 z2 : Z,
    fr_Percentage line1 = Num (inject_Z z1) /\
    fr_Percentage line2 = Num (inject_Z z2) /\
    (z1 <= z2)%Z.
Proof.
  intros HT H1 H2 Hle.
  assert (HT' : ~ (series_sum (map fr_Debit_Amount
                     (get_expenses_by_category_families df)) == 0)%Q) by lra.
  eexists _, _.
  split; [apply (percentage_of_line df line1 HT' H1)|].
  split; [apply (percentage_of_line df line2 HT' H2)|].
  apply round_half_even_monotone.
  apply Qmult_le_compat_r; [|lra].
  apply Qmult_le_compat_r; [exact Hle|].
  apply Qlt_le_weak, Qinv_lt_0_compat. exact HT.
Qed.

Lemma percentage_monotone_witness :
  exists z1 z2 : Z,
    fr_Percentage (mkFamilyRow "Needs" 30 (Num 38)) = Num (inject_Z z1) /\
    fr_Percentage (mkFamilyRow "Wants" 50 (Num 62)) = Num (inject_Z z2) /\
    (z1 <= z2)%Z.
Proof.
  apply (percentage_monotone
           [mkRow "rent" 30 None (Some "Needs"); mkRow "pub" 50 None (Some "Wants")]).
  - reflexivity.
  - apply elem_of_cons. left. reflexivity.
  - apply elem_of_cons. right. apply elem_of_cons. left. reflexivity.
  - discriminate.
Defined.

Lemma rounding_sum_error (T : Q) (xs : list Q) :
  (Qabs (inject_Z (Zsum (map (fun x => round_half_even (x / T * 100)) xs))
         - series_sum xs / T * 100)
   <= inject_Z (Z.of_nat (length xs)) * (1 # 2))%Q.
Proof.
  induction xs as [|x xs IH]; cbn [map length Zsum series_sum fold_right].
  - assert (H0 : (inject_Z 0 - 0 / T * 100 == 0)%Q) by (unfold Qdiv; ring).
    rewrite H0. discriminate.
  - destruct (round_half_even_nearest (x / T * 100)) as [Hn _].
    unfold Zsum in IH.
    apply Qabs_Qle_condition in Hn, IH. apply Qabs_Qle_condition.
    rewrite Nat2Z.inj_succ. unfold Z.succ.
    rewrite !inject_Z_plus. change (inject_Z 1) with 1%Q.
    assert (Hsplit : ((x + series_sum xs) / T * 100
                      == x / T * 100 + series_sum xs / T * 100)%Q)
      by (unfold Qdiv; ring).
    rewrite Hsplit. lra.
Qed.

(** X4. With a non-zero grand total every percentage is a whole number, and
    the percentages add up to 100 up to half a point per line. *)
Theorem percentages_sum_near_100 (df : list Row) :
  ~ (series_sum (map fr_Debit_Amount (get_expenses_by_category_families df)) == 0)%Q ->
  exists zs : list Z,
    map fr_Percentage (get_expenses_by_category_families df)
    = map (fun z => Num (inject_Z z)) zs /\
    (Qabs (inject_Z (Zsum zs) - 100)
     <= inject_Z (Z.of_nat (length (get_expenses_by_category_families df))) * (1 # 2))%Q.
Proof.
  intros HT.
  set (lines := get_expenses_by_category_families df) in *.
  set (T := series_sum (map fr_Debit_Amount lines)) in *.
  exists (map (fun x => round_half_even (x / T * 100)) (map fr_Debit_Amount lines)).
  split.
  - rewrite !map_map. apply map_ext_in. intros line Hin.
    apply (percentage_of_line df line HT). apply list_elem_of_In. exact Hin.
  - pose proof (rounding_sum_error T (map fr_Debit_Amount lines)) as H.
    rewrite length_map in H.
    assert (H100 : (series_sum (map fr_Debit_Amount lines) / T * 100 == 100)%Q).
    { fold T. field. exact HT. }
    rewrite H100 in H. exact H.
Qed.

Lemma percentages_sum_near_100_witness :
  exists zs : list Z,
    map fr_Percentage
      (get_expenses_by_category_families
         [mkRow "rent" 30 None (Some "Needs"); mkRow "pub" 50 None (Some "Wants")])
    = map (fun z => Num (inject_Z z)) zs /\
    (Qabs (inject_Z (Zsum zs) - 100)
     <= inject_Z (Z.of_nat (length
          (get_expenses_by_category_families
             [mkRow "rent" 30 None (Some "Needs"); mkRow "pub" 50 None (Some "Wants")])))
        * (1 # 2))%Q.
Proof.
  apply (percentages_sum_near_100
           [mkRow "rent" 30 None (Some "Needs"); mkRow "pub" 50 None (Some "Wants")]).
  discriminate.
Defined.

(** ** What a pass leaves behind *)

Lemma dict_update_values {V} (d : dict V) (k : string) (v : V) :
  forall x, x ∈ map snd (dict_update d k v) -> x = v \/ x ∈ map snd d.
Proof.
  intros x. induction d as [|[k' v'] d IH]; simpl.
  - rewrite list_elem_of_singleton. auto.
  - destruct (String.eqb k k'); simpl; rewrite !elem_of_cons.
    + tauto.
    + intros [H|H]; [auto|]. destruct (IH H); auto.
Qed.

Lemma dict_update_NoDup {V} (d : dict V) (k : string) (v : V) :
  NoDup (dict_keys d) -> NoDup (dict_keys (dict_update d k v)).
Proof.
  induction d as [|[k' v'] d IH]; simpl; intros Hnd.
  - apply NoDup_singleton.
  - apply NoDup_cons in Hnd. destruct Hnd as [Hk' Hnd].
    destruct (String.eqb_spec k k') as [Heq|Hne]; simpl.
    + apply NoDup_cons. auto.
    + apply NoDup_cons. split; [|apply IH; exact Hnd].
      intros Hin. apply dict_keys_update in Hin. destruct Hin; [congruence | contradiction].
Qed.

Section PassFacts.

Variable ratio : string -> string -> Z.
Variable lower : string -> string.

Local Abbreviation reconcile := (reconcile ratio lower).

(** The pass as a whole, from any mapping and any list of descriptions. *)
Lemma reconcile_outcome (ms : list string) :
  forall (d : dict string) (s : list string),
  exists d' left,
    reconcile d s ms = Ok (d', s ++ left) /\
    (forall k, k ∈ dict_keys d -> k ∈ dict_keys d') /\
    (forall k, k ∈ dict_keys d' -> k ∈ dict_keys d \/ k ∈ ms) /\
    left `sublist_of` ms /\
    (forall m, m ∈ left ->
       Forall (fun k => (ratio (lower m) (lower k) < 80)%Z) (dict_keys d)) /\
    (forall m, m ∈ ms -> m ∈ dict_keys d' \/ m ∈ left) /\
    (forall v, v ∈ map snd d' -> v ∈ map snd d) /\
    (NoDup (dict_keys d) -> NoDup (dict_keys d')).
Proof.
  induction ms as [|m ms IH]; intros d s.
  - exists d, []. simpl. rewrite app_nil_r.
    split; [reflexivity|]. split; [auto|]. split; [auto|].
    split; [constructor|]. split.
    { intros x Hx. apply elem_of_nil in Hx. contradiction. }
    split.
    { intros x Hx. apply elem_of_nil in Hx. contradiction. }
    split; auto.
  - rewrite reconcile_cons.
    destruct (reconcile_step ratio lower d s m)
      as [[Hno ->]|(ks1 & k & ks2 & v & Hk & _ & _ & Hv & ->)].
    + destruct (IH d (s ++ [m]))
        as (d' & left & Hr & Hmono & Hbound & Hsub & Hleft & Hcov & Hval & Hnd).
      exists d', (m :: left). rewrite Hr, <- app_assoc. simpl.
      split; [reflexivity|]. split; [exact Hmono|]. split.
      { intros x Hx. destruct (Hbound x Hx); [auto|]. right. apply elem_of_cons. auto. }
      split; [constructor; exact Hsub|]. split.
      { intros x Hx. apply elem_of_cons in Hx. destruct Hx as [->|Hx]; auto. }
      split.
      { intros x Hx. apply elem_of_cons in Hx. destruct Hx as [->|Hx].
        - right. apply elem_of_cons. auto.
        - destruct (Hcov x Hx); [auto|]. right. apply elem_of_cons. auto. }
      split; assumption.
    + destruct (IH (dict_update d m v) s)
        as (d' & left & Hr & Hmono & Hbound & Hsub & Hleft & Hcov & Hval & Hnd).
      exists d', left. rewrite Hr.
      split; [reflexivity|]. split.
      { intros x Hx. apply Hmono. apply dict_keys_update. auto. }
      split.
      { intros x Hx. rewrite elem_of_cons.
        destruct (Hbound x Hx) as [H|H]; [|auto].
        apply dict_keys_update in H. tauto. }
      split; [apply sublist_cons; exact Hsub|]. split.
      { intros x Hx. specialize (Hleft x Hx). rewrite Forall_forall in Hleft.
        apply Forall_forall. intros k' Hk'. apply Hleft.
        apply dict_keys_update. auto. }
      split.
      { intros x Hx. apply elem_of_cons in Hx. destruct Hx as [->|Hx].
        - left. apply Hmono. apply dict_keys_update. auto.
        - apply Hcov. exact Hx. }
      split.
      { intros x Hx. destruct (dict_update_values d m v x (Hval x Hx)) as [->|H];
          [|exact H].
        apply list_elem_of_fmap. exists (k, v). split; [reflexivity|].
        apply dict_get_elem. exact Hv. }
      intros Hd. apply Hnd. apply dict_update_NoDup. exact Hd.
Qed.

Lemma process_unrecognized_merchants_outcome {R : Type}
    (self : ExpenseTracker R) (w : World) (merchants : list string) :
  exists d' still,
    reconcile (merchant_mapping self) [] merchants = Ok (d', still) /\
    process_unrecognized_merchants ratio lower self w merchants
    = Ok (mkTracker (statement self) d' (expense_category_family_mapping self),
          mkWorld (<[MERCHANT_MAPPING := d']> (files w))
                  (stdout w ++ report still)).
Proof.
  destruct (reconcile_outcome merchants (merchant_mapping self) [])
    as (d' & still & Hr & _).
  simpl in Hr. exists d', still. split; [exact Hr|].
  unfold process_unrecognized_merchants. rewrite Hr. reflexivity.
Qed.

(** X5. Whatever descriptions are passed, the method succeeds, and each of
    them is afterwards a key of the mapping or among the leftovers it prints.
    The leftovers come in iteration order, and a description is left over
    only if it scores below 80 against every key the mapping had when the
    pass began. *)
Theorem process_unrecognized_merchants_leftovers {R : Type}
    (self : ExpenseTracker R) (w : World) (merchants : list string) :
  exists self' w' still,
    process_unrecognized_merchants ratio lower self w merchants = Ok (self', w') /\
    stdout w' = stdout w ++ report still /\
    still `sublist_of` merchants /\
    (forall m, m ∈ merchants ->
       m ∈ dict_keys (merchant_mapping self') \/ m ∈ still) /\
    (forall m k, m ∈ still -> k ∈ dict_keys (merchant_mapping self) ->
       (ratio (lower m) (lower k) < 80)%Z).
Proof.
  destruct (reconcile_outcome merchants (merchant_mapping self) [])
    as (d' & still & Hr & _ & _ & Hsub & Hleft & Hcov & _).
  simpl in Hr.
  unfold process_unrecognized_merchants. rewrite Hr.
  eexists _, _, still. split; [reflexivity|]. simpl.
  split; [reflexivity|]. split; [exact Hsub|]. split; [exact Hcov|].
  intros m k Hm Hk. specialize (Hleft m Hm). rewrite Forall_forall in Hleft. auto.
Qed.

(** X6. Reconciliation never invents a category: every value of the mapping
    after the pass was already a value of the mapping before it. *)
Theorem process_unrecognized_merchants_known_categories {R : Type}
    (self : ExpenseTracker R) (w : World) (merchants : list string) :
  exists self' w',
    process_unrecognized_merchants ratio lower self w merchants = Ok (self', w') /\
    forall v, v ∈ map snd (merchant_mapping self') ->
              v ∈ map snd (merchant_mapping self).
Proof.
  destruct (reconcile_outcome merchants (merchant_mapping self) [])
    as (d' & still & Hr & _ & _ & _ & _ & _ & Hval & _).
  simpl in Hr.
  unfold process_unrecognized_merchants. rewrite Hr.
  eexists _, _. split; [reflexivity|]. exact Hval.
Qed.

(** X7. Keys stay distinct: when no key occurs twice in the mapping before
    the pass, none occurs twice after it, in memory or in the document
    written to disk. *)
Theorem process_unrecognized_merchants_distinct_keys {R : Type}
    (self : ExpenseTracker R) (w : World) (merchants : list string) :
  NoDup (dict_keys (merchant_mapping self)) ->
  exists self' w',
    process_unrecognized_merchants ratio lower self w merchants = Ok (self', w') /\
    NoDup (dict_keys (merchant_mapping self')) /\
    files w' !! MERCHANT_MAPPING = Some (merchant_mapping self').
Proof.
  intros Hd.
  destruct (reconcile_outcome merchants (merchant_mapping self) [])
    as (d' & still & Hr & _ & _ & _ & _ & _ & _ & Hnd).
  simpl in Hr.
  unfold process_unrecognized_merchants. rewrite Hr.
  eexists _, _. split; [reflexivity|]. simpl.
  split; [apply Hnd; exact Hd | apply lookup_insert_eq].
Qed.

(** X8. When equal strings score at least 80, as with [fuzz.ratio], a
    description that equals a key of the mapping up to case is always
    learned: it is a key afterwards and is not left over. *)
Theorem process_unrecognized_merchants_case_variant {R : Type}
    (self : ExpenseTracker R) (w : World) (merchants : list string)
    (m k : string) :
  (forall s, (80 <= ratio s s)%Z) ->
  m ∈ merchants ->
  k ∈ dict_keys (merchant_mapping self) ->
  lower m = lower k ->
  exists self' w' still,
    process_unrecognized_merchants ratio lower self w merchants = Ok (self', w') /\
    stdout w' = stdout w ++ report still /\
    (m ∈ dict_keys (merchant_mapping self')) /\
    (m ∉ still).
Proof.
  intros Hrefl Hm Hk Hlow.
  destruct (reconcile_outcome merchants (merchant_mapping self) [])
    as (d' & still & Hr & _ & _ & _ & Hleft & Hcov & _).
  simpl in Hr.
  unfold process_unrecognized_merchants. rewrite Hr.
  eexists _, _, still. split; [reflexivity|]. simpl. split; [reflexivity|].
  assert (Hout : m ∉ still).
  { intros Hin. specialize (Hleft m Hin). rewrite Forall_forall in Hleft.
    specialize (Hleft k Hk). rewrite Hlow in Hleft.
    specialize (Hrefl (lower k)). lia. }
  split; [|exact Hout].
  destruct (Hcov m Hm); [assumption | contradiction].
Qed.

End PassFacts.

Lemma indel_ratio_refl (s : string) : (80 <= indel_ratio s s)%Z.
Proof. unfold indel_ratio. rewrite String.eqb_refl. lia. Qed.

Lemma process_unrecognized_merchants_distinct_keys_witness :
  exists (self' : ExpenseTracker RawRow) w',
    process_unrecognized_merchants indel_ratio ascii_lower isolated_tracker empty_world
      ["TESCO STORES 42"; "SHELL GARAGE"] = Ok (self', w') /\
    NoDup (dict_keys (merchant_mapping self')).
Proof.
  destruct (process_unrecognized_merchants_distinct_keys indel_ratio ascii_lower
              isolated_tracker empty_world ["TESCO STORES 42"; "SHELL GARAGE"])
    as (self' & w' & Hrun & Hnd & _).
  - apply (bool_decide_unpack _). vm_compute. exact I.
  - exists self', w'. split; [exact Hrun | exact Hnd].
Defined.

Lemma process_unrecognized_merchants_case_variant_witness :
  exists (self' : ExpenseTracker RawRow) w' still,
    process_unrecognized_merchants indel_ratio ascii_lower isolated_tracker empty_world
      ["Tesco Stores"; "SHELL GARAGE"] = Ok (self', w') /\
    stdout w' = stdout empty_world ++ report still /\
    ("Tesco Stores" ∈ dict_keys (merchant_mapping self')) /\
    ("Tesco Stores" ∉ still).
Proof.
  apply (process_unrecognized_merchants_case_variant indel_ratio ascii_lower
           isolated_tracker empty_world ["Tesco Stores"; "SHELL GARAGE"]
           "Tesco Stores" "TESCO STORES").
  - exact indel_ratio_refl.
  - apply elem_of_cons. left. reflexivity.
  - apply elem_of_cons. left. reflexivity.
  - reflexivity.
Defined.

(** ** The pipeline as a whole *)






Section PipelineFacts.

Variable ratio : string -> string -> Z.
Variable lower : string -> string.
Variable set_iter : list string -> list string.





End PipelineFacts.



(** On [isolated_tracker] the second run gives "TESCO STORES 42" the category
    the first run learned for it. *)
Example second_run_on_isolated_tracker :
  exists t1 w1 t2 w2,
    process_transactions indel_ratio ascii_lower iter_forward isolated_tracker empty_world
    = Ok (t1, w1) /\
    process_transactions indel_ratio ascii_lower iter_forward
      (mkTracker (statement isolated_tracker) (merchant_mapping t1)
                 (expense_category_family_mapping isolated_tracker)) w1 = Ok (t2, w2) /\
    map Category (statement t1) = [None; None; Some "Groceries"] /\
    map Category (statement t2) = [Some "Groceries"; None; Some "Groceries"].
Proof.
  destruct (process_transactions_outcome indel_ratio ascii_lower iter_forward
              isolated_tracker empty_world) as (d1 & s1 & Hr1 & Hrun1).
  vm_compute in Hr1. injection Hr1 as <- <-.
  eexists _, _. rewrite Hrun1.
  match goal with
  | |- context [process_transactions ?r ?l ?i ?t ?w0] =>
      match t with
      | mkTracker _ _ _ =>
          destruct (process_transactions_outcome r l i t w0) as (d2 & s2 & _ & Hrun2)
      end
  end.
  eexists _, _. split; [reflexivity|]. split; [exact Hrun2|].
  split; vm_compute; reflexivity.
Qed.



(** ** Choosing the statement *)

Lemma insert_by_mtime_perm (mtime : string -> Q) (x : string) (l : list string) :
  insert_by_mtime mtime x l ≡ₚ x :: l.
Proof.
  induction l as [|y l IH]; simpl; [reflexivity|].
  destruct (Qle_bool (mtime y) (mtime x)); [reflexivity|].
  rewrite IH. apply perm_swap.
Qed.

Lemma sorted_by_mtime_reverse_perm (mtime : string -> Q) (names : list string) :
  sorted_by_mtime_reverse mtime names ≡ₚ names.
Proof.
  induction names as [|x names IH]; simpl; [reflexivity|].
  rewrite insert_by_mtime_perm, IH. reflexivity.
Qed.

Lemma insert_by_mtime_sorted (mtime : string -> Q) (x : string) (l : list string) :
  StronglySorted (fun a b => (mtime b <= mtime a)%Q) l ->
  StronglySorted (fun a b => (mtime b <= mtime a)%Q) (insert_by_mtime mtime x l).
Proof.
  induction l as [|y l IH]; simpl; intros Hs.
  - repeat constructor.
  - pose proof Hs as Hs0.
    apply StronglySorted_inv in Hs. destruct Hs as [Hs Hall].
    destruct (Qle_bool (mtime y) (mtime x)) eqn:E.
    + apply Qle_bool_iff in E. constructor; [exact Hs0|].
      constructor; [exact E|].
      eapply Forall_impl; [exact Hall|]. intros z Hz. simpl in Hz.
      eapply Qle_trans; eassumption.
    + assert (Hlt : (mtime x < mtime y)%Q).
      { apply Qnot_le_lt. intros Hle. apply Qle_bool_iff in Hle. congruence. }
      constructor; [apply IH; exact Hs|].
      apply Forall_forall. intros z Hz.
      rewrite insert_by_mtime_perm in Hz. apply elem_of_cons in Hz.
      destruct Hz as [->|Hz].
      * apply Qlt_le_weak. exact Hlt.
      * rewrite Forall_forall in Hall. apply Hall. exact Hz.
Qed.

Lemma sorted_by_mtime_reverse_sorted (mtime : string -> Q) (names : list string) :
  StronglySorted (fun a b => (mtime b <= mtime a)%Q)
                 (sorted_by_mtime_reverse mtime names).
Proof.
  induction names as [|x names IH]; simpl; [constructor|].
  apply insert_by_mtime_sorted. exact IH.
Qed.



(** X14. With at least one file in the directory, the answer "1" selects a
    file of the directory that no other file is more recent than. *)
Theorem select_statement_latest (mtime : string -> Q) (listdir : list string)
    (w : World) :
  listdir <> [] ->
  exists name,
    fst (select_statement mtime listdir w "1") = Ok name /\
    (name ∈ listdir) /\
    forall other, other ∈ listdir -> (mtime other <= mtime name)%Q.
Proof.
  intros Hne.
  pose proof (sorted_by_mtime_reverse_perm mtime listdir) as Hperm.
  pose proof (sorted_by_mtime_reverse_sorted mtime listdir) as Hsorted.
  destruct (sorted_by_mtime_reverse mtime listdir) as [|name rest] eqn:E.
  { apply Permutation_nil_l in Hperm. congruence. }
  exists name. split.
  - unfold select_statement. rewrite E. reflexivity.
  - split.
    + rewrite <- Hperm. apply elem_of_cons. auto.
    + intros other Hin. rewrite <- Hperm in Hin.
      apply StronglySorted_inv in Hsorted. destruct Hsorted as [_ Hall].
      apply elem_of_cons in Hin. destruct Hin as [->|Hin].
      * apply Qle_refl.
      * rewrite Forall_forall in Hall. apply Hall. exact Hin.
Qed.

Lemma select_statement_latest_witness :
  exists name,
    fst (select_statement
           (fun name => if String.eqb name "march.csv" then 30%Q else 10%Q)
           ["february.csv"; "march.csv"; "january.csv"] empty_world "1") = Ok name /\
    (name ∈ ["february.csv"; "march.csv"; "january.csv"]).
Proof.
  destruct (select_statement_latest
              (fun name => if String.eqb name "march.csv" then 30%Q else 10%Q)
              ["february.csv"; "march.csv"; "january.csv"] empty_world)
    as (name & Hsel & Hin & _).
  - discriminate.
  - exists name. split; [exact Hsel | exact Hin].
Defined.

(** Files modified at the same time keep the order of the listing. *)
Example select_statement_menu :
  sorted_by_mtime_reverse
    (fun name => if String.eqb name "march.csv" then 30%Q else 10%Q)
    ["february.csv"; "march.csv"; "january.csv"]
  = ["march.csv"; "february.csv"; "january.csv"] /\
  select_statement
    (fun name => if String.eqb name "march.csv" then 30%Q else 10%Q)
    ["february.csv"; "march.csv"; "january.csv"] empty_world "03"
  = (KeyError "03",
     mkWorld ∅ ["1 - march.csv"; "2 - february.csv"; "3 - january.csv";
                "Please select a statement id: "]).
Proof. split; vm_compute; reflexivity. Qed.

(** ** The date range of the report *)

Lemma insert_timestamp_perm (t : Z) (l : list Z) : insert_timestamp t l ≡ₚ t :: l.
Proof.
  induction l as [|u l IH]; simpl; [reflexivity|].
  destruct (t <=? u)%Z; [reflexivity|]. rewrite IH. apply perm_swap.
Qed.

Lemma sort_values_perm (dates : list Z) : sort_values dates ≡ₚ dates.
Proof.
  induction dates as [|t dates IH]; simpl; [reflexivity|].
  rewrite insert_timestamp_perm, IH. reflexivity.
Qed.

Lemma insert_timestamp_sorted (t : Z) (l : list Z) :
  StronglySorted Z.le l -> StronglySorted Z.le (insert_timestamp t l).
Proof.
  induction l as [|u l IH]; simpl; intros Hs.
  - repeat constructor.
  - pose proof Hs as Hs0.
    apply StronglySorted_inv in Hs. destruct Hs as [Hs Hall].
    destruct (Z.leb_spec t u) as [Hle|Hgt].
    + constructor; [exact Hs0|]. constructor; [exact Hle|].
      eapply Forall_impl; [exact Hall|]. intros z Hz. simpl in Hz. lia.
    + constructor; [apply IH; exact Hs|].
      apply Forall_forall. intros z Hz.
      rewrite insert_timestamp_perm in Hz. apply elem_of_cons in Hz.
      destruct Hz as [->|Hz]; [lia|].
      rewrite Forall_forall in Hall. apply Hall. exact Hz.
Qed.

Lemma sort_values_sorted (dates : list Z) : StronglySorted Z.le (sort_values dates).
Proof.
  induction dates as [|t dates IH]; simpl; [constructor|].
  apply insert_timestamp_sorted. exact IH.
Qed.

Lemma sorted_ends (l : list Z) :
  StronglySorted Z.le l -> l <> [] ->
  exists lo hi,
    head l = Some lo /\ last l = Some hi /\
    forall t, t ∈ l -> (lo <= t <= hi)%Z.
Proof.
  induction 1 as [|x l Hs IH Hall]; intros Hne; [congruence|].
  destruct l as [|y l'].
  - exists x, x. split; [reflexivity|]. split; [reflexivity|].
    intros t Ht. apply list_elem_of_singleton in Ht. lia.
  - destruct IH as (lo & hi & Hlo & Hhi & Hbounds); [discriminate|].
    exists x, hi. split; [reflexivity|]. split; [rewrite last_cons_cons; exact Hhi|].
    rewrite Forall_forall in Hall.
    intros t Ht. apply elem_of_cons in Ht. destruct Ht as [->|Ht].
    + split; [lia|]. apply last_Some_elem_of in Hhi.
      pose proof (Hall hi Hhi). lia.
    + pose proof (Hall t Ht). pose proof (Hbounds t Ht). lia.
Qed.

Lemma last_map {A B} (f : A -> B) (l : list A) : last (map f l) = f <$> last l.
Proof.
  induction l as [|x l IH]; [reflexivity|].
  destruct l as [|y l]; [reflexivity|].
  simpl map in *. rewrite !last_cons_cons. exact IH.
Qed.

Section DateRangeFacts.

Variable strftime : Z -> string.

(** X15. On a statement without rows the date range raises [IndexError].
    Otherwise it is the formatted earliest date, an underscore and the
    formatted latest date, whatever the order of the rows; the report's name
    is that range after "expense_report_". *)
Theorem get_date_range_from_statement_ends (dates : list Z) :
  (dates = [] /\
   get_date_range_from_statement strftime dates = IndexError /\
   expense_report_name strftime dates = IndexError)
  \/ (exists lo hi,
         (lo ∈ dates) /\ (hi ∈ dates) /\
         (forall t, t ∈ dates -> (lo <= t <= hi)%Z) /\
         get_date_range_from_statement strftime dates
         = Found (strftime lo +:+ "_" +:+ strftime hi) /\
         expense_report_name strftime dates
         = Found ("expense_report_" +:+ strftime lo +:+ "_" +:+ strftime hi)).
Proof.
  destruct dates as [|d0 dates0]; [left; repeat split; reflexivity|].
  right. set (dates := d0 :: dates0).
  pose proof (sort_values_perm dates) as Hperm.
  destruct (sorted_ends (sort_values dates) (sort_values_sorted dates))
    as (lo & hi & Hlo & Hhi & Hbounds).
  { intros E. rewrite E in Hperm. apply Permutation_nil_l in Hperm. discriminate. }
  exists lo, hi.
  assert (Hrange : get_date_range_from_statement strftime dates
                   = Found (strftime lo +:+ "_" +:+ strftime hi)).
  { unfold get_date_range_from_statement. rewrite last_map, Hhi.
    apply head_Some in Hlo. destruct Hlo as [rest ->]. reflexivity. }
  split.
  { rewrite <- Hperm. apply head_Some in Hlo. destruct Hlo as [rest ->].
    apply elem_of_cons. auto. }
  split; [rewrite <- Hperm; apply last_Some_elem_of; exact Hhi|].
  split; [intros t Ht; apply Hbounds; rewrite Hperm; exact Ht|].
  split; [exact Hrange|].
  unfold expense_report_name. rewrite Hrange. reflexivity.
Qed.

(** X16. The date range, and with it the name of the report, does not depend
    on the order of the rows. *)
Theorem get_date_range_from_statement_order (dates dates' : list Z) :
  dates ≡ₚ dates' ->
  get_date_range_from_statement strftime dates
  = get_date_range_from_statement strftime dates' /\
  expense_report_name strftime dates = expense_report_name strftime dates'.
Proof.
  intros Hperm.
  assert (E : sort_values dates = sort_values dates').
  { apply (StronglySorted_unique Z.le).
    - apply sort_values_sorted.
    - apply sort_values_sorted.
    - rewrite !sort_values_perm. exact Hperm. }
  unfold expense_report_name, get_date_range_from_statement. rewrite E.
  split; reflexivity.
Qed.

End DateRangeFacts.

Lemma get_date_range_from_statement_order_witness :
  get_date_range_from_statement pretty [30%Z; 10%Z; 20%Z]
  = get_date_range_from_statement pretty [10%Z; 20%Z; 30%Z].
Proof.
  apply (get_date_range_from_statement_order pretty [30%Z; 10%Z; 20%Z] [10%Z; 20%Z; 30%Z]).
  apply (bool_decide_unpack _). vm_compute. exact I.
Defined.
